(** * Execution core of the plain test-case interface

    A shallow embedding of [engine/plain_iface/test_case.cpp]: the
    interrupt monitor, the work-directory creation, the process isolator,
    the supervised executor, the outcome classifier and the orchestrator,
    over an explicit process state and a scripted environment. *)

From Stdlib Require Import ZArith String Ascii DecimalString Lia.
From Stdlib Require DecimalZ DecimalPos.
From stdpp Require Import base option list gmap strings.

Local Open Scope string_scope.
Local Open Scope list_scope.
Local Open Scope Z_scope.

(** ** Strings and the formatting macro *)

(** [F("%d") % n]: the decimal rendering of an [int]. *)
Definition format_int (n : Z) : string :=
  NilZero.string_of_int (Z.to_int n).

(** [sub] occurs in [s] as a contiguous block. *)
Definition contains (s sub : string) : Prop :=
  exists pre post : string, s = pre +:+ sub +:+ post.

(** The characters of a string, for arguments by character. *)
Fixpoint chars (s : string) : list ascii :=
  match s with
  | EmptyString => []
  | String c r => c :: chars r
  end.

(** The characters a formatted integer is made of. *)
Definition sign_or_digit (c : ascii) : bool :=
  bool_decide (c ∈ chars "-0123456789").

(** A newline, for the messages that end in one. *)
Definition nl : string := String (ascii_of_nat 10) EmptyString.

(** ** Termination status and results *)

Module process.

(** Modelled from the spec: [utils::process::status] (its header is not
    part of this translation unit) is the sum type
    {exited(code), signaled(signal-number, core-dumped?), unknown}. *)
Inductive status : Type :=
| Exited (code : Z)
| Signaled (signo : Z) (core : bool)
| Unknown.

Definition exited (st : status) : bool :=
  match st with Exited _ => true | _ => false end.

Definition signaled (st : status) : bool :=
  match st with Signaled _ _ => true | _ => false end.

Definition exitstatus (st : status) : Z :=
  match st with Exited c => c | _ => 0 end.

Definition termsig (st : status) : Z :=
  match st with Signaled s _ => s | _ => 0 end.

Definition coredump (st : status) : bool :=
  match st with Signaled _ c => c | _ => false end.

End process.

Module results.

(** Modelled from the spec: [engine::results] is the closed variant
    {passed, failed(reason), broken(reason)} with a [good] query that
    holds only for [passed]. *)
Inductive result : Type :=
| passed
| failed (reason : string)
| broken (reason : string).

Definition good (r : result) : bool :=
  match r with passed => true | _ => false end.

End results.

Import process results.

(** Exit code returned when the exec of the test program fails. *)
Definition exec_failure_code : Z := 120.

Definition EXIT_SUCCESS : Z := 0.

Definition core_dumped_note : string := " (core dumped)".

(** [format_status]: the description of a termination status. *)
Definition format_status (st : status) : string :=
  if exited st then
    "Exited with code " +:+ format_int (exitstatus st)
  else if signaled st then
    "Received signal " +:+ format_int (termsig st) +:+
      (if coredump st then core_dumped_note else "")
  else
    "Terminated in an unknown manner".

(** [calculate_result]: from the wait outcome ([None] when the timeout
    expired) to a test result. *)
Definition calculate_result (maybe_status : option status) : result :=
  match maybe_status with
  | None => broken "Test case timed out"
  | Some st =>
      if exited st then
        if exitstatus st =? EXIT_SUCCESS then passed
        else if exitstatus st =? exec_failure_code then
          broken "Failed to execute test program"
        else failed (format_status st)
      else broken (format_status st)
  end.

(** ** Exceptions and abnormal termination *)

(** The exception classes the translation unit names.  Every one of them
    derives from [std::exception]; all but [std_exception] (which stands
    for the classes outside the [std::runtime_error] family, such as
    [std::bad_alloc]) derive from [std::runtime_error]. *)
Inductive exn : Type :=
| interrupted_error (signo : Z)
| fs_error (what : string)
| process_system_error (what : string) (original_errno : Z)
| process_timeout_error (what : string)
| signals_system_error (what : string) (original_errno : Z)
| runtime_error (what : string)
| std_exception (what : string).

Definition exn_what (e : exn) : string :=
  match e with
  | interrupted_error signo => "Interrupted by signal " +:+ format_int signo
  | fs_error what => what
  | process_system_error what _ => what
  | process_timeout_error what => what
  | signals_system_error what _ => what
  | runtime_error what => what
  | std_exception what => what
  end.

Definition is_runtime_error (e : exn) : bool :=
  match e with std_exception _ => false | _ => true end.

Definition is_interrupted (e : exn) : bool :=
  match e with interrupted_error _ => true | _ => false end.

(** Ways in which the running process stops without unwinding. *)
Inductive halt : Type :=
| Exit (code : Z)                               (* std::exit *)
| Abort                                         (* std::abort *)
| Sanity (what : string)                        (* INV, PRE, POST, UNREACHABLE *)
| Exec (program : string) (args : list string). (* image replaced by exec *)

Inductive outcome (A : Type) : Type :=
| Ret (a : A)
| Throw (e : exn)
| Halt (h : halt).

Arguments Ret {A} a.
Arguments Throw {A} e.
Arguments Halt {A} h.

(** ** Process state *)

(** <signal.h>, <errno.h> and <unistd.h> values (Linux numbering). *)
Definition SIGHUP : Z := 1.
Definition SIGINT : Z := 2.
Definition SIGKILL : Z := 9.
Definition SIGTERM : Z := 15.
Definition SIGSTOP : Z := 19.
Definition EINTR : Z := 4.
Definition ECHILD : Z := 10.
Definition EINVAL : Z := 22.
Definition STDERR_FILENO : Z := 2.

(** The only handler function this translation unit installs; a signal
    with no entry in the table has its default disposition. *)
Inductive sighandler : Type := InterruptHandler.

Inductive loglevel : Type := Debug | Info | Warning.

(** Observable actions, in the order in which they are performed. *)
Inductive event : Type :=
| EvWrite (fd : Z) (text : string)
| EvLog (level : loglevel) (text : string)
| EvProgram (signo : Z)
| EvUnprogram (signo : Z)
| EvMkdtemp (template : string)
| EvMkdir (dir : string) (mode : Z)
| EvFork (pid : Z) (outfile errfile : string)
| EvWait (pid : Z) (timeout : option (Z * Z))
| EvKill (pid : Z) (signo : Z)
| EvCleanup (dir : string)
| EvUmask (mask : Z)
| EvSigReset (signo : Z)
| EvUnsetenv (name : string)
| EvSetenv (name value : string)
| EvChdir (dir : string)
| EvExecve (program : string) (args : list string).

Record world : Type := World {
  interrupted_signo : Z;                   (* the static flag *)
  sigactions : gmap Z sighandler;          (* installed handlers *)
  programmers : gmap Z (option sighandler);(* live, still programmed
                                              signals::programmer objects:
                                              the action each one saved *)
  environ : gmap string string;
  file_mode_mask : Z;
  cwd : string;
  pid : Z;
  pgrp : Z;
  dirs : gset string;                      (* directories that exist *)
  auto_dirs : gset string;                 (* live fs::auto_directory
                                              objects not yet cleaned *)
  trace : list event
}.

Definition set_interrupted_signo (v : Z) (w : world) : world :=
  World v (sigactions w) (programmers w) (environ w) (file_mode_mask w)
        (cwd w) (pid w) (pgrp w) (dirs w) (auto_dirs w) (trace w).

Definition set_sigactions (v : gmap Z sighandler) (w : world) : world :=
  World (interrupted_signo w) v (programmers w) (environ w) (file_mode_mask w)
        (cwd w) (pid w) (pgrp w) (dirs w) (auto_dirs w) (trace w).

Definition set_programmers (v : gmap Z (option sighandler)) (w : world)
  : world :=
  World (interrupted_signo w) (sigactions w) v (environ w) (file_mode_mask w)
        (cwd w) (pid w) (pgrp w) (dirs w) (auto_dirs w) (trace w).

Definition set_environ (v : gmap string string) (w : world) : world :=
  World (interrupted_signo w) (sigactions w) (programmers w) v
        (file_mode_mask w) (cwd w) (pid w) (pgrp w) (dirs w) (auto_dirs w)
        (trace w).

Definition set_file_mode_mask (v : Z) (w : world) : world :=
  World (interrupted_signo w) (sigactions w) (programmers w) (environ w) v
        (cwd w) (pid w) (pgrp w) (dirs w) (auto_dirs w) (trace w).

Definition set_cwd (v : string) (w : world) : world :=
  World (interrupted_signo w) (sigactions w) (programmers w) (environ w)
        (file_mode_mask w) v (pid w) (pgrp w) (dirs w) (auto_dirs w)
        (trace w).

Definition set_dirs (v : gset string) (w : world) : world :=
  World (interrupted_signo w) (sigactions w) (programmers w) (environ w)
        (file_mode_mask w) (cwd w) (pid w) (pgrp w) v (auto_dirs w)
        (trace w).

Definition set_auto_dirs (v : gset string) (w : world) : world :=
  World (interrupted_signo w) (sigactions w) (programmers w) (environ w)
        (file_mode_mask w) (cwd w) (pid w) (pgrp w) (dirs w) v (trace w).

Definition set_trace (v : list event) (w : world) : world :=
  World (interrupted_signo w) (sigactions w) (programmers w) (environ w)
        (file_mode_mask w) (cwd w) (pid w) (pgrp w) (dirs w) (auto_dirs w) v.

(** ** The monad of state, exceptions and termination *)

Definition M (A : Type) : Type := world -> outcome A * world.

Definition ret {A} (a : A) : M A := fun w => (Ret a, w).

Definition throw {A} (e : exn) : M A := fun w => (Throw e, w).

Definition stop {A} (h : halt) : M A := fun w => (Halt h, w).

Definition bind {A B} (m : M A) (k : A -> M B) : M B :=
  fun w =>
    match m w with
    | (Ret a, w') => k a w'
    | (Throw e, w') => (Throw e, w')
    | (Halt h, w') => (Halt h, w')
    end.

Notation "'let*' x ':=' m 'in' k" := (bind m (fun x => k))
  (at level 10, x name, m at level 100, k at level 200).
Notation "m ';;' k" := (bind m (fun _ => k))
  (at level 100, k at level 200, right associativity).

(** [try { m } catch (...) { ... }]: [handler e] is the body of the first
    clause that matches [e], or [None] when no clause does. *)
Definition try_catch {A} (m : M A) (handler : exn -> option (M A)) : M A :=
  fun w =>
    match m w with
    | (Throw e, w') =>
        match handler e with
        | Some h => h w'
        | None => (Throw e, w')
        end
    | r => r
    end.

(** Leaving a scope, by return or by exception, runs the destructor of the
    object declared in it; a process that stops runs none. *)
Definition scope_exit {A} (body : M A) (dtor : M unit) : M A :=
  fun w =>
    match body w with
    | (Halt h, w') => (Halt h, w')
    | (r, w') =>
        match dtor w' with
        | (Halt h, w'') => (Halt h, w'')
        | (_, w'') => (r, w'')
        end
    end.

Definition get {A} (f : world -> A) : M A := fun w => (Ret (f w), w).

Definition modify (f : world -> world) : M unit := fun w => (Ret tt, f w).

Definition emit (e : event) : M unit :=
  modify (fun w => set_trace (trace w ++ [e]) w).

Fixpoint for_each {A} (l : list A) (body : A -> M unit) : M unit :=
  match l with
  | [] => ret tt
  | x :: r => body x;; for_each r body
  end.

(** The sanity macros stop the process when their condition is false. *)
Definition sanity (what : string) (cond : bool) : M unit :=
  if cond then ret tt else stop (Sanity what).

Definition LD (text : string) : M unit := emit (EvLog Debug text).
Definition LI (text : string) : M unit := emit (EvLog Info text).
Definition LW (text : string) : M unit := emit (EvLog Warning text).

(** ** Interrupt monitor *)

Definition signal_caught_message : string :=
  "[-- Signal caught; please wait for clean up --]" +:+ nl.

(** [interrupt_handler]: the handler for termination signals. *)
Definition interrupt_handler (signo : Z) : M unit :=
  emit (EvWrite STDERR_FILENO signal_caught_message);;
  modify (set_interrupted_signo signo);;
  let* flag := get interrupted_signo in
  sanity "POST(interrupted_signo != 0)" (negb (flag =? 0));;
  sanity "POST(interrupted_signo == signo)" (flag =? signo).

(** [check_interrupt]: raises when a signal is pending. *)
Definition check_interrupt : M unit :=
  LD "Checking for pending interrupt signals";;
  let* flag := get interrupted_signo in
  if negb (flag =? 0) then
    LI "Interrupt pending; raising error to cause cleanup";;
    throw (interrupted_error flag)
  else ret tt.

(** ** Asynchronous signal delivery *)

(** A signal is caught when it is a signal (its number is positive) and a
    handler is installed for it. *)
Definition caught (actions : gmap Z sighandler) (signo : Z) : bool :=
  (0 <? signo) && bool_decide (is_Some (actions !! signo)).

(** The kernel delivers one signal: the installed handler runs.  A signal
    that has no handler does not reach the code. *)
Definition deliver (signo : Z) : M unit :=
  let* actions := get sigactions in
  if 0 <? signo then
    match actions !! signo with
    | Some InterruptHandler => interrupt_handler signo
    | None => ret tt
    end
  else ret tt.

(** The signals that arrive while one operation of the environment runs. *)
Definition deliver_all (signals : list Z) : M unit :=
  for_each signals deliver.

(** ** Signal programming *)

(** Modelled from the spec: [utils::signals::programmer] (not part of this
    translation unit) installs a handler on construction, remembers the
    action it replaced, restores it in [unprogram], and un-programs in its
    destructor when that has not happened yet. *)
Definition programmer_ctor (signo : Z) (handler : sighandler) : M unit :=
  let* actions := get sigactions in
  emit (EvProgram signo);;
  modify (fun w => set_programmers (<[signo := actions !! signo]> (programmers w)) w);;
  modify (set_sigactions (<[signo := handler]> actions)).

Definition programmer_unprogram (signo : Z) : M unit :=
  let* objs := get programmers in
  match objs !! signo with
  | None => stop (Sanity "PRE(programmed)")
  | Some old =>
      emit (EvUnprogram signo);;
      modify (fun w => set_programmers (delete signo (programmers w)) w);;
      modify (fun w =>
        set_sigactions
          (match old with
           | Some h => <[signo := h]> (sigactions w)
           | None => delete signo (sigactions w)
           end) w)
  end.

Definition programmer_dtor (signo : Z) : M unit :=
  let* objs := get programmers in
  if bool_decide (is_Some (objs !! signo)) then programmer_unprogram signo
  else ret tt.

(** [signals::programmer name(signo, handler); body]. *)
Definition with_programmer {A} (signo : Z) (handler : sighandler)
    (body : M A) : M A :=
  programmer_ctor signo handler;;
  scope_exit body (programmer_dtor signo).

(** [signals::reset]: back to the default disposition; [ok] tells whether
    the system accepts the request. *)
Definition signals_reset (ok : bool) (signo : Z) : M unit :=
  emit (EvSigReset signo);;
  if ok then modify (fun w => set_sigactions (delete signo (sigactions w)) w)
  else throw (signals_system_error
                ("Failed to reset signal " +:+ format_int signo) EINVAL).

(** ** Scripted environment *)

(** What the environment does during one operation: the signals that
    arrive while it runs, and its answer. *)
Record reply (A : Type) : Type := Reply {
  signals : list Z;
  answer : A
}.

Arguments Reply {A} signals answer.
Arguments signals {A} r.
Arguments answer {A} r.

(** ** Paths and the file system *)

(** [fs::path] values are kept as the strings they wrap. *)
Definition path_join (dir leaf : string) : string := dir +:+ "/" +:+ leaf.

Definition is_absolute (p : string) : bool := String.prefix "/" p.

(** [d] is [dir] itself or lies below it. *)
Definition under (dir d : string) : bool :=
  String.eqb dir d || String.prefix (dir +:+ "/") d.

(** The part of a [mkdtemp] template before its six trailing X. *)
Fixpoint strip_template (template : string) : option string :=
  if String.eqb template "XXXXXX" then Some ""
  else
    match template with
    | EmptyString => None
    | String c rest => option_map (String c) (strip_template rest)
    end.

(** A suffix [mkdtemp] may take for the stem [stem]: six characters that
    name no existing entry. *)
Definition free_suffix (stem : string) (existing : gset string) (s : string)
  : bool :=
  (String.length s =? 6)%nat && bool_decide ((stem +:+ s) ∉ existing).

Inductive mkdtemp_answer : Type :=
| MkdtempNames (candidates : list string) (* suffixes tried, in order *)
| MkdtempFails (what : string).           (* permissions, disk full, ... *)

(** Modelled from the spec: [utils::fs::mkdtemp] (not part of this
    translation unit) atomically creates a directory with a random unique
    suffix in place of the template's trailing XXXXXX, and fails with a
    file-system error if creation is impossible.  As mkdtemp(3) does, it
    takes the first six-character suffix that names no existing entry. *)
Definition fs_mkdtemp (r : reply mkdtemp_answer) (template : string)
  : M string :=
  emit (EvMkdtemp template);;
  deliver_all (signals r);;
  match answer r with
  | MkdtempFails what => throw (fs_error what)
  | MkdtempNames candidates =>
      match strip_template template with
      | None => throw (fs_error ("Invalid template " +:+ template))
      | Some stem =>
          let* existing := get dirs in
          match List.find (free_suffix stem existing) candidates with
          | None =>
              throw (fs_error ("Cannot create a unique directory from " +:+
                               template))
          | Some s =>
              modify (fun w => set_dirs ({[stem +:+ s]} ∪ dirs w) w);;
              ret (stem +:+ s)
          end
      end
  end.

(** [fs::mkdir]: [Some what] is the failure the system reports. *)
Definition fs_mkdir (r : reply (option string)) (dir : string) (mode : Z)
  : M unit :=
  emit (EvMkdir dir mode);;
  deliver_all (signals r);;
  match answer r with
  | Some what => throw (fs_error what)
  | None => modify (fun w => set_dirs ({[dir]} ∪ dirs w) w)
  end.

(** Modelled from the spec: [utils::fs::auto_directory] (not part of this
    translation unit) removes the directory and its contents on scope
    exit; [cleanup] does so early and may fail with a file-system error;
    once [cleanup] has run, later calls are no-ops. *)
Definition auto_directory_ctor (dir : string) : M unit :=
  modify (fun w => set_auto_dirs ({[dir]} ∪ auto_dirs w) w).

Definition auto_directory_cleanup (r : reply (option string)) (dir : string)
  : M unit :=
  let* live := get auto_dirs in
  if bool_decide (dir ∈ live) then
    modify (fun w => set_auto_dirs (auto_dirs w ∖ {[dir]}) w);;
    emit (EvCleanup dir);;
    deliver_all (signals r);;
    match answer r with
    | Some what => throw (fs_error what)
    | None =>
        modify (fun w =>
          set_dirs (filter (fun d => under dir d = false) (dirs w)) w)
    end
  else ret tt.

Definition auto_directory_dtor (r : reply (option string)) (dir : string)
  : M unit :=
  try_catch (auto_directory_cleanup r dir)
    (fun e =>
       match e with
       | fs_error what =>
           Some (LW ("Failed to clean up directory: " +:+ what))
       | _ => None
       end).

(** [fs::auto_directory name(dir); body]. *)
Definition with_auto_directory {A} (r : reply (option string))
    (dir : string) (body : M A) : M A :=
  auto_directory_ctor dir;;
  scope_exit body (auto_directory_dtor r dir).

(** ** Work-directory manager *)

Definition getenv (name : string) : M (option string) :=
  get (fun w => environ w !! name).

(** [create_work_directory]: a new directory with a unique name under
    TMPDIR, or under /tmp when TMPDIR is not set. *)
Definition create_work_directory (r : reply mkdtemp_answer) : M string :=
  let* tmpdir := getenv "TMPDIR" in
  match tmpdir with
  | None => fs_mkdtemp r "/tmp/kyua.XXXXXX"
  | Some dir => fs_mkdtemp r (dir +:+ "/kyua.XXXXXX")
  end.

(** ** Child processes *)

Inductive fork_answer : Type :=
| ForkPid (child : Z)
| ForkFails (what : string) (errno : Z).

(** waitpid(2) fails with ECHILD, EINVAL, or EINTR; the last only when a
    handler ran during the call, which [wait_reply] derives from the
    signals. *)
Inductive waitpid_errno : Type := WaitECHILD | WaitEINVAL.

Definition errno_value (e : waitpid_errno) : Z :=
  match e with WaitECHILD => ECHILD | WaitEINVAL => EINVAL end.

Inductive wait_answer : Type :=
| WaitStatus (st : status)
| WaitTimeout
| WaitFails (what : string) (e : waitpid_errno).

Record wait_reply : Type := WaitReply {
  wait_signals : list Z;  (* arrive while the parent is blocked *)
  wait_result : wait_answer;
  wait_late : list Z      (* arrive once the call is about to return *)
}.

(** Modelled from the spec: [process::child_with_files::fork] (not part of
    this translation unit) spawns a child running [hook] with its output
    sent to the two files.  The hook runs in the new process; the parent
    learns of it only through the wait. *)
Definition child_fork (r : reply fork_answer) (hook : M unit)
    (outfile errfile : string) : M Z :=
  deliver_all (signals r);;
  match answer r with
  | ForkFails what errno => throw (process_system_error what errno)
  | ForkPid child => emit (EvFork child outfile errfile);; ret child
  end.

(** Modelled from the spec: [child->wait(timeout)] is released with the
    termination status, is interrupted by the delivery of a caught signal
    (EINTR), times out, or fails with another system error. *)
Definition child_wait_timeout (r : wait_reply) (child : Z) (timeout : Z * Z)
  : M status :=
  emit (EvWait child (Some timeout));;
  let* actions := get sigactions in
  deliver_all (wait_signals r);;
  if existsb (caught actions) (wait_signals r) then
    throw (process_system_error
             ("Failed to wait for PID " +:+ format_int child) EINTR)
  else
    match wait_result r with
    | WaitStatus st => deliver_all (wait_late r);; ret st
    | WaitTimeout =>
        deliver_all (wait_late r);;
        throw (process_timeout_error
                 ("The timeout was exceeded while waiting for PID " +:+
                  format_int child))
    | WaitFails what e => throw (process_system_error what (errno_value e))
    end.

(** Modelled from the spec: [child->wait()] is the blocking, non-timed
    wait that reaps the child. *)
Definition child_wait (r : reply status) (child : Z) : M status :=
  emit (EvWait child None);;
  deliver_all (signals r);;
  ret (answer r).

Definition sys_kill (child : Z) (signo : Z) : M Z :=
  emit (EvKill child signo);; ret 0.

(** [process::exec]: replaces the process image, or throws when the system
    refuses ([Some (what, errno)]). *)
Definition process_exec (refusal : option (string * Z)) (program : string)
    (args : list string) : M unit :=
  emit (EvExecve program args);;
  match refusal with
  | None => stop (Exec program args)
  | Some (what, errno) => throw (process_system_error what errno)
  end.

(** ** Process isolator *)

(** What the child's system answers during isolation and exec.
    [last_signo] is [utils::signals::last_signo], a constant of the
    platform. *)
Record child_env : Type := ChildEnv {
  last_signo : Z;
  reset_ok : Z -> bool;              (* does resetting this signal work *)
  chdir_to : string -> option string;(* the directory entered, if any *)
  exec_refusal : option (string * Z)
}.

Definition sys_umask (mask : Z) : M unit :=
  emit (EvUmask mask);; modify (set_file_mode_mask mask).

Definition utils_unsetenv (name : string) : M unit :=
  emit (EvUnsetenv name);;
  modify (fun w => set_environ (delete name (environ w)) w).

Definition utils_setenv (name value : string) : M unit :=
  emit (EvSetenv name value);;
  modify (fun w => set_environ (<[name := value]> (environ w)) w).

(** [::chdir]: 0 on success, -1 on failure. *)
Definition sys_chdir (ce : child_env) (dir : string) : M Z :=
  emit (EvChdir dir);;
  match chdir_to ce dir with
  | Some entered => modify (set_cwd entered);; ret 0
  | None => ret (-1)
  end.

Definition fs_current_path : M string := get cwd.

(** The octal literal 0022. *)
Definition umask_0022 : Z := 2 * 8 + 2.

(** [isolate_process]: isolates the current process from the rest of the
    system. *)
Definition isolate_process (ce : child_env) (dir : string) : M unit :=
  let* group := get pgrp in
  let* self := get pid in
  sanity "INV(::getpgrp() == ::getpid())" (group =? self);;
  sys_umask umask_0022;;
  for_each (seqZ 0 (last_signo ce + 1)) (fun i =>
    try_catch
      (if negb (i =? SIGKILL) && negb (i =? SIGSTOP) then
         signals_reset (reset_ok ce i) i
       else ret tt)
      (fun e =>
         match e with
         | signals_system_error _ _ => Some (ret tt)
         | _ => None
         end));;
  utils_unsetenv "LANG";;
  utils_unsetenv "LC_ALL";;
  utils_unsetenv "LC_COLLATE";;
  utils_unsetenv "LC_CTYPE";;
  utils_unsetenv "LC_MESSAGES";;
  utils_unsetenv "LC_MONETARY";;
  utils_unsetenv "LC_NUMERIC";;
  utils_unsetenv "LC_TIME";;
  utils_setenv "TZ" "UTC";;
  let* rc := sys_chdir ce dir in
  (if rc =? -1 then
     throw (runtime_error ("Failed to enter work directory " +:+ dir))
   else ret tt);;
  let* here := fs_current_path in
  utils_setenv "HOME" here.

(** ** Supervised executor: the child's side *)

Record test_case : Type := TestCase {
  identifier : string;
  test_program_absolute_path : string
}.

Definition to_absolute (p : string) : M string :=
  let* here := fs_current_path in ret (path_join here p).

Definition cerr (text : string) : M unit := emit (EvWrite STDERR_FILENO text).

(** [execute_test_case::safe_run]. *)
Definition safe_run (ce : child_env) (tc : test_case)
    (work_directory : string) : M unit :=
  let test_program := test_program_absolute_path tc in
  let* abs_test_program :=
    (if is_absolute test_program then ret test_program
     else to_absolute test_program) in
  isolate_process ce work_directory;;
  let args : list string := [] in
  try_catch (process_exec (exec_refusal ce) abs_test_program args)
    (fun e =>
       match e with
       | process_system_error what _ =>
           Some (cerr ("Failed to execute test program: " +:+ what +:+ nl);;
                 stop (Exit exec_failure_code))
       | _ => None
       end).

(** [execute_test_case::operator()] around a given [safe_run]. *)
Definition execute_test_case_call (run : M unit) : M unit :=
  try_catch run
    (fun e =>
       if is_runtime_error e then
         Some (cerr ("Caught unhandled exception while setting up the test" +:+
                     "case: " +:+ exn_what e +:+ nl))
       else
         Some (cerr ("Caught unknown exception while setting up the test" +:+
                     "case" +:+ nl)));;
  stop Abort.

(** The functor [execute_test_case(test_case, work_directory)]. *)
Definition execute_test_case (ce : child_env) (tc : test_case)
    (work_directory : string) : M unit :=
  execute_test_case_call (safe_run ce tc work_directory).

(** ** Supervised executor: the parent's side *)

(** [fork_and_wait]: forks a subprocess and waits for its completion;
    [None] when the timeout expired. *)
Definition fork_and_wait (rf : reply fork_answer) (rw : wait_reply)
    (rr : reply status) (hook : M unit) (outfile errfile : string)
  : M (option status) :=
  let* child := child_fork rf hook outfile errfile in
  try_catch
    (let timeout := (60, 0) in
     let* st := child_wait_timeout rw child timeout in
     ret (Some st))
    (fun error =>
       match error with
       | process_system_error _ original_errno =>
           Some (if original_errno =? EINTR then
                   sys_kill child SIGKILL;;
                   child_wait rr child;;
                   check_interrupt;;
                   stop (Sanity "UNREACHABLE")
                 else throw error)
       | process_timeout_error _ => Some (ret None)
       | _ => None
       end).

(** ** Orchestrator *)

(** Everything the environment does during one run. *)
Record scenario : Type := Scenario {
  sc_mkdtemp : reply mkdtemp_answer;
  sc_mkdir : reply (option string);
  sc_fork : reply fork_answer;
  sc_wait : wait_reply;
  sc_reap : reply status;
  sc_cleanup : reply (option string);
  sc_child : child_env
}.

(** The octal literal 0755. *)
Definition mode_0755 : Z := (7 * 8 + 5) * 8 + 5.

(** [run_test_case_safe_workdir]: executes a test case within a work
    directory. *)
Definition run_test_case_safe_workdir (sc : scenario) (tc : test_case)
    (workdir : string) : M result :=
  let rundir := path_join workdir "run" in
  fs_mkdir (sc_mkdir sc) rundir mode_0755;;
  let result_file := path_join workdir "result.txt" in
  check_interrupt;;
  LI ("Running test case '" +:+ identifier tc +:+ "'");;
  let* body_status :=
    fork_and_wait (sc_fork sc) (sc_wait sc) (sc_reap sc)
      (execute_test_case (sc_child sc) tc rundir)
      (path_join workdir "stdout.txt") (path_join workdir "stderr.txt") in
  check_interrupt;;
  ret (calculate_result (body_status)).

Definition unprogram_all : M unit :=
  programmer_unprogram SIGHUP;;
  programmer_unprogram SIGINT;;
  programmer_unprogram SIGTERM.

(** The [try] statement of [run_test_case_safe], with both of its
    handlers. *)
Definition run_in_workdir (sc : scenario) (tc : test_case) (dir : string)
  : M result :=
  try_catch
    (check_interrupt;;
     let* result := run_test_case_safe_workdir sc tc dir in
     try_catch
       (auto_directory_cleanup (sc_cleanup sc) dir;; ret result)
       (fun e =>
          match e with
          | fs_error what =>
              Some (if good result then
                      ret (broken ("Could not clean up test work directory: "
                                   +:+ what))
                    else
                      LW ("Not reporting work directory clean up failure " +:+
                          "because the test is already broken: " +:+ what);;
                      ret result)
          | _ => None
          end))
    (fun e =>
       match e with
       | interrupted_error _ =>
           Some (auto_directory_cleanup (sc_cleanup sc) dir;;
                 unprogram_all;;
                 throw e)
       | _ => None
       end).

(** [run_test_case_safe] up to and including the un-programming that
    follows the [try] statement. *)
Definition run_and_unprogram (sc : scenario) (tc : test_case) (dir : string)
  : M result :=
  let* result := run_in_workdir sc tc dir in
  unprogram_all;;
  ret result.

(** [run_test_case_safe]: executes a test case. *)
Definition run_test_case_safe (sc : scenario) (tc : test_case) : M result :=
  with_programmer SIGHUP InterruptHandler (
  with_programmer SIGINT InterruptHandler (
  with_programmer SIGTERM InterruptHandler (
    let* dir := create_work_directory (sc_mkdtemp sc) in
    with_auto_directory (sc_cleanup sc) dir (
      let* result := run_and_unprogram sc tc dir in
      check_interrupt;;
      ret result)))).

(** [plain_iface::test_case::do_run]: the public entry point. *)
Definition do_run (sc : scenario) (tc : test_case) : M result :=
  LI ("Processing test case '" +:+ identifier tc +:+ "'");;
  let* result :=
    try_catch
      (let* r := run_test_case_safe sc tc in ret (Some r))
      (fun e =>
         match e with
         | interrupted_error _ => Some (throw e)
         | _ =>
             Some (ret (Some (broken
                     ("The test caused an error in the runtime system: " +:+
                      exn_what e))))
         end) in
  match result with
  | None => stop (Sanity "INV(result.get() != NULL)")
  | Some r => ret r
  end.

(** ** Auxiliary notions for the statements *)

(** The flag once the signals [sigs] have been delivered under the
    installed [actions]: the last caught one, else the old value. *)
Definition flag_after (actions : gmap Z sighandler) (sigs : list Z)
    (flag : Z) : Z :=
  fold_left (fun f s => if caught actions s then s else f) sigs flag.

(** What the handler prints while [sigs] are delivered. *)
Definition handler_writes (actions : gmap Z sighandler) (sigs : list Z)
  : list event :=
  map (fun _ => EvWrite STDERR_FILENO signal_caught_message)
      (List.filter (caught actions) sigs).

(** The state once the signals [sigs] have been delivered. *)
Definition delivered (sigs : list Z) (w : world) : world :=
  set_trace (trace w ++ handler_writes (sigactions w) sigs)
    (set_interrupted_signo
       (flag_after (sigactions w) sigs (interrupted_signo w)) w).

(** The signals whose disposition [isolate_process] resets. *)
Definition resettable (i : Z) : bool :=
  negb (i =? SIGKILL) && negb (i =? SIGSTOP).

(** The dispositions once the reset loop has visited the signals [l]. *)
Definition reset_actions (ce : child_env) (l : list Z)
    (actions : gmap Z sighandler) : gmap Z sighandler :=
  fold_left
    (fun acts i => if resettable i && reset_ok ce i then delete i acts
                   else acts)
    l actions.

(** The base directory [create_work_directory] works under. *)
Definition work_directory_base (w : world) : string :=
  match environ w !! "TMPDIR" with
  | Some dir => dir
  | None => "/tmp"
  end.

(** The program path the child hands to exec. *)
Definition abs_test_program (tc : test_case) (w : world) : string :=
  if is_absolute (test_program_absolute_path tc)
  then test_program_absolute_path tc
  else path_join (cwd w) (test_program_absolute_path tc).

(** What the child reports for an exception that escapes [safe_run]. *)
Definition setup_failure_report (e : exn) : string :=
  if is_runtime_error e then
    "Caught unhandled exception while setting up the testcase: " +:+
    exn_what e +:+ nl
  else "Caught unknown exception while setting up the testcase" +:+ nl.

(** [m] keeps the state property [inv] and throws only exceptions that
    satisfy [thrown]. *)
Definition respects (inv : world -> Prop) (thrown : exn -> Prop) {A}
    (m : M A) : Prop :=
  forall w, inv w ->
    inv (snd (m w)) /\ forall e, fst (m w) = Throw e -> thrown e.

(** The line [interrupt_handler] prints. *)
Definition is_handler_write (e : event) : bool :=
  match e with
  | EvWrite fd text =>
      (fd =? STDERR_FILENO) && String.eqb text signal_caught_message
  | _ => false
  end.

(** No signal arrives during the run. *)
Definition quiet (sc : scenario) : Prop :=
  signals (sc_mkdtemp sc) = [] /\ signals (sc_mkdir sc) = []
  /\ signals (sc_fork sc) = [] /\ wait_signals (sc_wait sc) = []
  /\ wait_late (sc_wait sc) = [] /\ signals (sc_reap sc) = []
  /\ signals (sc_cleanup sc) = [].

(** The three [signals::programmer] declarations that open
    [run_test_case_safe]. *)
Definition program_handlers : M unit :=
  programmer_ctor SIGHUP InterruptHandler;;
  programmer_ctor SIGINT InterruptHandler;;
  programmer_ctor SIGTERM InterruptHandler.

(** ** Sample runs *)

(** A process that has not run any test case yet. *)
Definition fresh_process : world :=
  World 0 ∅ ∅ {["PATH" := "/bin"]} umask_0022 "/" 100 100 {["/tmp"]} ∅ [].

Definition plain_child : child_env :=
  ChildEnv 31 (fun i => 0 <? i) (fun dir => Some dir) None.

Definition sample_test : test_case := TestCase "prog:main" "/bin/true".

(** The program exits with [code]; nothing else happens. *)
Definition run_exits (code : Z) : scenario :=
  Scenario (Reply [] (MkdtempNames ["abcdef"])) (Reply [] None)
    (Reply [] (ForkPid 101)) (WaitReply [] (WaitStatus (Exited code)) [])
    (Reply [] (Signaled SIGKILL false)) (Reply [] None) plain_child.

(** The operator presses Ctrl-C while the parent waits for the child. *)
Definition run_interrupted : scenario :=
  Scenario (Reply [] (MkdtempNames ["abcdef"])) (Reply [] None)
    (Reply [] (ForkPid 101)) (WaitReply [SIGINT] (WaitStatus (Exited 0)) [])
    (Reply [] (Signaled SIGKILL false)) (Reply [] None) plain_child.

(** The same, and the work directory cannot be removed. *)
Definition run_interrupted_dirty : scenario :=
  Scenario (Reply [] (MkdtempNames ["abcdef"])) (Reply [] None)
    (Reply [] (ForkPid 101)) (WaitReply [SIGINT] (WaitStatus (Exited 0)) [])
    (Reply [] (Signaled SIGKILL false))
    (Reply [] (Some "Permission denied")) plain_child.

(** The program exits with [code] and the work directory cannot be
    removed. *)
Definition run_exits_dirty (code : Z) : scenario :=
  Scenario (Reply [] (MkdtempNames ["abcdef"])) (Reply [] None)
    (Reply [] (ForkPid 101)) (WaitReply [] (WaitStatus (Exited code)) [])
    (Reply [] (Signaled SIGKILL false))
    (Reply [] (Some "Permission denied")) plain_child.

(** The directory for a run cannot be made inside the work directory. *)
Definition run_mkdir_fails : scenario :=
  Scenario (Reply [] (MkdtempNames ["abcdef"]))
    (Reply [] (Some "No space left on device"))
    (Reply [] (ForkPid 101)) (WaitReply [] (WaitStatus (Exited 0)) [])
    (Reply [] (Signaled SIGKILL false)) (Reply [] None) plain_child.

(** What [calculate_result] is applied to when the wait is released. *)
Definition wait_outcome (rw : wait_reply) : option status :=
  match wait_result rw with
  | WaitStatus st => Some st
  | _ => None
  end.

(** The messages of [run_test_case_safe] about a failed clean-up. *)
Definition cleanup_broken_reason (what : string) : string :=
  "Could not clean up test work directory: " +:+ what.

Definition cleanup_warning (what : string) : string :=
  "Not reporting work directory clean up failure because the test is " +:+
  "already broken: " +:+ what.

Definition checking_log : event :=
  EvLog Debug "Checking for pending interrupt signals".

Definition pending_log : event :=
  EvLog Info "Interrupt pending; raising error to cause cleanup".

(** The part of [run_test_case_safe] that comes before its [try]
    statement: the handlers are programmed and the work directory is
    made and handed to its [fs::auto_directory]. *)
Definition enter_work_directory (sc : scenario) : M string :=
  program_handlers;;
  let* dir := create_work_directory (sc_mkdtemp sc) in
  auto_directory_ctor dir;;
  ret dir.

(** The program exits with code 0 and SIGTERM arrives while the work
    directory is being removed. *)
Definition run_signaled_late : scenario :=
  Scenario (Reply [] (MkdtempNames ["abcdef"])) (Reply [] None)
    (Reply [] (ForkPid 101)) (WaitReply [] (WaitStatus (Exited 0)) [])
    (Reply [] (Signaled SIGKILL false)) (Reply [SIGTERM] None) plain_child.

(** A child whose test program does not exist. *)
Definition refusing_child : child_env :=
  ChildEnv 31 (fun i => 0 <? i) (fun dir => Some dir)
    (Some ("No such file or directory", 2)).

(** A parent that has programmed its handlers. *)
Definition programmed_process : world := snd (program_handlers fresh_process).
(** ** Further notions for the statements *)

(** The state once the event [e] has been recorded. *)
Definition logged (e : event) (w : world) : world :=
  set_trace (trace w ++ [e]) w.

(** From a state in [P] the computation [m] does not stop the process: it
    returns a value and a state in [Q], or throws an exception and leaves
    a state in [E]. *)
Definition triple (P : world -> Prop) {A} (m : M A)
    (Q : A -> world -> Prop) (E : exn -> world -> Prop) : Prop :=
  forall w, P w ->
    match m w with
    | (Ret a, w') => Q a w'
    | (Throw e, w') => E e w'
    | (Halt _, _) => False
    end.

(** [m] keeps the state property [inv] and never stops the process. *)
Definition steady (inv : world -> Prop) {A} (m : M A) : Prop :=
  triple inv m (fun _ => inv) (fun _ => inv).

(** [inv] does not depend on the interrupt flag, the trace, the
    directories that exist or the directories registered for removal. *)
Definition stable (inv : world -> Prop) : Prop :=
  (forall v w, inv w -> inv (set_interrupted_signo v w))
  /\ (forall v w, inv w -> inv (set_trace v w))
  /\ (forall v w, inv w -> inv (set_dirs v w))
  /\ (forall v w, inv w -> inv (set_auto_dirs v w)).

(** What a [signals::programmer] object has done so far to its signal. *)
Inductive phase : Type :=
| Fresh     (* not constructed yet *)
| Armed     (* constructed, handler installed *)
| Restored. (* un-programmed, old action back in place *)

(** The three signals [run_test_case_safe] programs. *)
Definition termination_signal (s : Z) : bool :=
  (s =? SIGHUP) || (s =? SIGINT) || (s =? SIGTERM).

(** The phase of signal [s] when the programmers of SIGHUP, SIGINT and
    SIGTERM are in the phases [hup], [int] and [term]. *)
Definition phase_of (hup int term : phase) (s : Z) : phase :=
  if s =? SIGHUP then hup
  else if s =? SIGINT then int
  else if s =? SIGTERM then term
  else Fresh.

(** The dispositions and the live programmers of [w] when they were
    [actions0] and [objs0] before the run and the three programmers are
    in the given phases. *)
Definition programmed (actions0 : gmap Z sighandler)
    (objs0 : gmap Z (option sighandler)) (hup int term : phase)
    (w : world) : Prop :=
  forall s,
    match phase_of hup int term s with
    | Fresh =>
        sigactions w !! s = actions0 !! s /\ programmers w !! s = objs0 !! s
    | Armed =>
        sigactions w !! s = Some InterruptHandler
        /\ programmers w !! s = Some (actions0 !! s)
    | Restored =>
        sigactions w !! s = actions0 !! s /\ programmers w !! s = None
    end.

(** * Properties *)

(** ** Strings *)

Lemma append_cons (c : ascii) (s t : string) :
  String c s +:+ t = String c (s +:+ t).
Proof. reflexivity. Qed.

Lemma append_empty_r (s : string) : s +:+ "" = s.
Proof. induction s as [|c s IH]; [done | by rewrite append_cons, IH]. Qed.

Lemma append_assoc (a b c : string) : (a +:+ b) +:+ c = a +:+ (b +:+ c).
Proof.
  induction a as [|x a IH]; [done | by rewrite !append_cons, IH].
Qed.

Lemma chars_append (a b : string) : chars (a +:+ b) = chars a ++ chars b.
Proof.
  induction a as [|x a IH]; [done|].
  rewrite append_cons. cbn [chars]. by rewrite IH.
Qed.

Lemma contains_suffix (pre sub : string) : contains (pre +:+ sub) sub.
Proof. exists pre, "". by rewrite append_empty_r. Qed.

Lemma contains_middle (pre sub post : string) :
  contains (pre +:+ sub +:+ post) sub.
Proof. by exists pre, post. Qed.

Lemma contains_chars (s sub : string) (c : ascii) :
  contains s sub -> c ∈ chars sub -> c ∈ chars s.
Proof.
  intros (pre & post & ->) Hc.
  rewrite !chars_append. apply elem_of_app. right.
  apply elem_of_app. by left.
Qed.

Lemma uint_chars (d : Decimal.uint) :
  forallb sign_or_digit (chars (NilEmpty.string_of_uint d)) = true.
Proof. induction d; simpl; try done. Qed.

Lemma format_int_chars (n : Z) :
  forallb sign_or_digit (chars (format_int n)) = true.
Proof.
  unfold format_int, NilZero.string_of_int, NilZero.string_of_uint.
  destruct (Z.to_int n) as [d|d]; destruct d; simpl; try done;
    apply uint_chars.
Qed.

Lemma format_int_no_paren (n : Z) : "("%char ∉ chars (format_int n).
Proof.
  intros Hin. pose proof (format_int_chars n) as Hall.
  rewrite forallb_forall in Hall.
  apply list_elem_of_In, Hall in Hin. vm_compute in Hin. done.
Qed.

(** ** Outcome classifier *)

(** C1. [calculate_result] is total and maps: no status to
    broken("Test case timed out"); exit code 0 to passed; the exec-failure
    code 120 to broken("Failed to execute test program"), ahead of the
    generic non-zero case; any other exit code c to failed with a message
    that contains c; a signal s to broken with a message that contains s
    and carries the core-dump note exactly when a core was dumped; any
    other termination to broken("Terminated in an unknown manner"). *)
Theorem calculate_result_mapping :
  calculate_result None = broken "Test case timed out"
  /\ calculate_result (Some (Exited 0)) = passed
  /\ calculate_result (Some (Exited exec_failure_code))
     = broken "Failed to execute test program"
  /\ (forall c : Z, c <> 0 -> c <> exec_failure_code ->
        calculate_result (Some (Exited c))
        = failed ("Exited with code " +:+ format_int c)
        /\ contains ("Exited with code " +:+ format_int c) (format_int c))
  /\ (forall (s : Z) (core : bool),
        exists msg : string,
          calculate_result (Some (Signaled s core)) = broken msg
          /\ contains msg ("Received signal " +:+ format_int s)
          /\ (contains msg core_dumped_note <-> core = true))
  /\ calculate_result (Some Unknown)
     = broken "Terminated in an unknown manner".
Proof.
  split; [reflexivity|]. split; [reflexivity|]. split; [reflexivity|].
  split; [|split; [|reflexivity]].
  - intros c H0 H120. split; [|apply contains_suffix].
    unfold calculate_result, exec_failure_code, EXIT_SUCCESS in *. simpl.
    destruct (Z.eqb_spec c 0) as [|_]; [done|].
    destruct (Z.eqb_spec c 120) as [|_]; done.
  - intros s core.
    exists ("Received signal " +:+ format_int s +:+
            (if core then core_dumped_note else "")).
    split; [reflexivity|]. split.
    + exists "", (if core then core_dumped_note else "").
      by rewrite append_assoc.
    + split.
      * intros Hc. destruct core; [done|]. exfalso.
        apply (contains_chars _ _ "("%char) in Hc;
          [|by apply (bool_decide_unpack _)].
        rewrite append_empty_r, chars_append in Hc.
        apply elem_of_app in Hc as [Hc|Hc].
        -- by apply (bool_decide_pack _) in Hc.
        -- by apply format_int_no_paren in Hc.
      * intros ->. exists ("Received signal " +:+ format_int s), "".
        by rewrite append_empty_r.
Qed.

(** ** The monad *)

(** Evaluation of monadic code on a symbolic state: only the monad, the
    primitives without scripted answer and the state accessors unfold. *)
Ltac mrun :=
  lazy beta iota zeta delta
    [interrupted_signo sigactions programmers environ file_mode_mask cwd
     pid pgrp dirs auto_dirs trace set_interrupted_signo set_sigactions
     set_programmers set_environ set_file_mode_mask set_cwd set_dirs
     set_auto_dirs set_trace delivered fst snd
     bind ret throw stop get modify emit try_catch scope_exit sanity
     LD LI LW cerr].

Ltac mrun_in H :=
  lazy beta iota zeta delta
    [interrupted_signo sigactions programmers environ file_mode_mask cwd
     pid pgrp dirs auto_dirs trace set_interrupted_signo set_sigactions
     set_programmers set_environ set_file_mode_mask set_cwd set_dirs
     set_auto_dirs set_trace delivered fst snd
     bind ret throw stop get modify emit try_catch scope_exit sanity
     LD LI LW cerr] in H.

Lemma bind_ret_inv {A B} (m : M A) (k : A -> M B) w b w' :
  bind m k w = (Ret b, w') ->
  exists a w1, m w = (Ret a, w1) /\ k a w1 = (Ret b, w').
Proof.
  unfold bind. destruct (m w) as [[a|e|h] w1]; [eauto | done | done].
Qed.

Lemma bind_run {A B} (m : M A) (k : A -> M B) w a w1 :
  m w = (Ret a, w1) -> bind m k w = k a w1.
Proof. unfold bind. by intros ->. Qed.

Lemma bind_throw {A B} (m : M A) (k : A -> M B) w e w1 :
  m w = (Throw e, w1) -> bind m k w = (Throw e, w1).
Proof. unfold bind. by intros ->. Qed.

Lemma bind_halt {A B} (m : M A) (k : A -> M B) w h w1 :
  m w = (Halt h, w1) -> bind m k w = (Halt h, w1).
Proof. unfold bind. by intros ->. Qed.

(** ** Signal delivery *)

Lemma flag_after_app actions l1 l2 flag :
  flag_after actions (l1 ++ l2) flag
  = flag_after actions l2 (flag_after actions l1 flag).
Proof. unfold flag_after. apply fold_left_app. Qed.

Lemma caught_positive actions s : caught actions s = true -> 0 < s.
Proof. unfold caught. intros [H _]%andb_prop. lia. Qed.

Lemma flag_after_sticky actions sigs flag :
  flag <> 0 -> flag_after actions sigs flag <> 0.
Proof.
  revert flag. induction sigs as [|s sigs IH]; intros flag Hf; [done|].
  simpl. apply IH. destruct (caught actions s) eqn:E; [|done].
  apply caught_positive in E. lia.
Qed.

Lemma flag_after_caught actions sigs flag :
  existsb (caught actions) sigs = true -> flag_after actions sigs flag <> 0.
Proof.
  revert flag. induction sigs as [|s sigs IH]; intros flag; [done|].
  simpl. destruct (caught actions s) eqn:E; simpl.
  - intros _. apply flag_after_sticky. apply caught_positive in E. lia.
  - apply IH.
Qed.

Lemma flag_after_zero actions sigs flag :
  flag_after actions sigs flag = 0 ->
  flag = 0 /\ existsb (caught actions) sigs = false.
Proof.
  intros H. split.
  - destruct (decide (flag = 0)) as [|Hn]; [done|].
    by apply (flag_after_sticky actions sigs) in Hn.
  - destruct (existsb (caught actions) sigs) eqn:E; [|done].
    by apply (flag_after_caught actions sigs flag) in E.
Qed.

Lemma flag_after_quiet actions sigs flag :
  existsb (caught actions) sigs = false -> flag_after actions sigs flag = flag.
Proof.
  revert flag. induction sigs as [|s sigs IH]; intros flag; [done|].
  simpl. destruct (caught actions s); [done | apply IH].
Qed.

Lemma interrupt_handler_eq signo w :
  signo <> 0 ->
  interrupt_handler signo w
  = (Ret tt,
     set_interrupted_signo signo
       (set_trace (trace w ++ [EvWrite STDERR_FILENO signal_caught_message])
          w)).
Proof.
  intros Hs. unfold interrupt_handler, bind, emit, modify, get, sanity.
  simpl. rewrite Z.eqb_refl.
  destruct (Z.eqb_spec signo 0); [done|]. reflexivity.
Qed.

Lemma deliver_eq signo w : deliver signo w = (Ret tt, delivered [signo] w).
Proof.
  unfold deliver, delivered, handler_writes, flag_after, caught.
  unfold bind at 1. unfold get at 1. simpl.
  destruct (Z.ltb_spec 0 signo) as [Hpos|Hneg]; simpl.
  - destruct (sigactions w !! signo) as [[]|] eqn:E.
    + rewrite interrupt_handler_eq by lia.
      rewrite bool_decide_true by eauto. by destruct w.
    + rewrite bool_decide_false by (by intros [? ?]).
      simpl. rewrite app_nil_r. by destruct w.
  - rewrite app_nil_r. by destruct w.
Qed.

Lemma delivered_cons s sigs w :
  delivered (s :: sigs) w = delivered sigs (delivered [s] w).
Proof.
  unfold delivered, handler_writes. destruct w; simpl.
  destruct (caught _ s); simpl; by rewrite <- ?app_assoc.
Qed.

Lemma deliver_all_eq sigs w : deliver_all sigs w = (Ret tt, delivered sigs w).
Proof.
  revert w. induction sigs as [|s sigs IH]; intros w.
  - unfold delivered, handler_writes. simpl. rewrite app_nil_r.
    by destruct w.
  - unfold deliver_all. cbn [for_each]. unfold bind. rewrite deliver_eq.
    fold (deliver_all sigs). by rewrite IH, (delivered_cons s sigs w).
Qed.

(** ** Supervised executor *)

Lemma child_wait_timeout_eintr_inv r child timeout w what w2 :
  child_wait_timeout r child timeout w
  = (Throw (process_system_error what EINTR), w2) ->
  existsb (caught (sigactions w)) (wait_signals r) = true
  /\ w2 = delivered (wait_signals r)
            (set_trace (trace w ++ [EvWait child (Some timeout)]) w).
Proof.
  unfold child_wait_timeout, bind, emit, modify, get. simpl.
  rewrite deliver_all_eq.
  destruct (existsb _ _) eqn:E.
  - unfold throw. intros [= <- <-]. done.
  - destruct (wait_result r) as [st| |what' e]; rewrite ?deliver_all_eq;
      unfold ret, throw; try done.
    destruct e; intros [= _ He _]; discriminate He.
Qed.


(** ** Process isolator *)

Lemma reset_actions_cons ce j l actions :
  reset_actions ce (j :: l) actions
  = reset_actions ce l
      (if resettable j && reset_ok ce j then delete j actions else actions).
Proof. reflexivity. Qed.

Lemma reset_loop_eq ce l w :
  for_each l (fun i =>
    try_catch
      (if negb (i =? SIGKILL) && negb (i =? SIGSTOP) then
         signals_reset (reset_ok ce i) i
       else ret tt)
      (fun e =>
         match e with
         | signals_system_error _ _ => Some (ret tt)
         | _ => None
         end)) w
  = (Ret tt,
     set_trace (trace w ++ map EvSigReset (List.filter resettable l))
       (set_sigactions (reset_actions ce l (sigactions w)) w)).
Proof.
  revert w. induction l as [|i l IH]; intros w.
  - simpl. rewrite app_nil_r. by destruct w.
  - cbn [for_each]. unfold bind at 1. unfold try_catch at 1.
    rewrite reset_actions_cons. cbn [List.filter].
    change (negb (i =? SIGKILL) && negb (i =? SIGSTOP)) with (resettable i).
    destruct (resettable i) eqn:Hr.
    + unfold signals_reset, bind, emit, modify. simpl.
      destruct (reset_ok ce i); simpl; rewrite IH; simpl;
        by rewrite <- app_assoc.
    + simpl. rewrite IH. by destruct w.
Qed.

Lemma reset_actions_lookup ce l actions i :
  reset_actions ce l actions !! i
  = if resettable i && reset_ok ce i && bool_decide (i ∈ l) then None
    else actions !! i.
Proof.
  revert actions. induction l as [|j l IH]; intros actions.
  - simpl. by rewrite andb_false_r.
  - rewrite reset_actions_cons, IH.
    destruct (decide (i = j)) as [->|Hne].
    + rewrite (bool_decide_true (j ∈ j :: l)) by (by left).
      rewrite andb_true_r.
      destruct (resettable j && reset_ok ce j) eqn:E; simpl.
      * rewrite lookup_delete_eq. by destruct (bool_decide _).
      * done.
    + rewrite (bool_decide_ext (i ∈ j :: l) (i ∈ l))
        by (rewrite elem_of_cons; intuition congruence).
      destruct (resettable i && reset_ok ce i && bool_decide (i ∈ l));
        [done|].
      destruct (resettable j && reset_ok ce j); [|done].
      by rewrite lookup_delete_ne.
Qed.

Lemma locale_cleared (env : gmap string string) (name : string) :
  name ∈ ["LANG"; "LC_ALL"; "LC_COLLATE"; "LC_CTYPE"; "LC_MESSAGES";
          "LC_MONETARY"; "LC_NUMERIC"; "LC_TIME"] ->
  name <> "TZ" /\ name <> "HOME"
  /\ delete "LC_TIME"
       (delete "LC_NUMERIC"
          (delete "LC_MONETARY"
             (delete "LC_MESSAGES"
                (delete "LC_CTYPE"
                   (delete "LC_COLLATE"
                      (delete "LC_ALL" (delete "LANG" env)))))))
     !! name = None.
Proof.
  intros Hname. apply list_elem_of_In in Hname. simpl in Hname.
  repeat (destruct Hname as [<-|Hname]; [repeat split; try done;
    rewrite !lookup_delete; repeat case_decide; done|]).
  done.
Qed.

(** C7. [isolate_process] performs, in this order: umask 0022; a reset to
    the default disposition of every signal from 0 to the last one except
    SIGKILL and SIGSTOP, errors of the reset being ignored; the removal of
    LANG, LC_ALL, LC_COLLATE, LC_CTYPE, LC_MESSAGES, LC_MONETARY,
    LC_NUMERIC and LC_TIME from the environment; TZ=UTC; a change into the
    given directory, raising a runtime error if that fails; and last
    HOME set to the directory the process is then in. *)
Theorem isolate_process_steps ce dir w :
  pgrp w = pid w ->
  exists w' : world,
    isolate_process ce dir w
    = (match chdir_to ce dir with
       | Some _ => Ret tt
       | None =>
           Throw (runtime_error ("Failed to enter work directory " +:+ dir))
       end, w')
    /\ trace w'
       = trace w ++ [EvUmask umask_0022]
         ++ map EvSigReset
              (List.filter
                 (fun i => negb (i =? SIGKILL) && negb (i =? SIGSTOP))
                 (seqZ 0 (last_signo ce + 1)))
         ++ [EvUnsetenv "LANG"; EvUnsetenv "LC_ALL"; EvUnsetenv "LC_COLLATE";
             EvUnsetenv "LC_CTYPE"; EvUnsetenv "LC_MESSAGES";
             EvUnsetenv "LC_MONETARY"; EvUnsetenv "LC_NUMERIC";
             EvUnsetenv "LC_TIME"; EvSetenv "TZ" "UTC"; EvChdir dir]
         ++ match chdir_to ce dir with
            | Some entered => [EvSetenv "HOME" entered]
            | None => []
            end
    /\ file_mode_mask w' = 18
    /\ (forall i : Z,
          sigactions w' !! i
          = if bool_decide (0 <= i <= last_signo ce)
               && negb (i =? SIGKILL) && negb (i =? SIGSTOP)
               && reset_ok ce i
            then None else sigactions w !! i)
    /\ (forall name : string,
          name ∈ ["LANG"; "LC_ALL"; "LC_COLLATE"; "LC_CTYPE"; "LC_MESSAGES";
                  "LC_MONETARY"; "LC_NUMERIC"; "LC_TIME"] ->
          environ w' !! name = None)
    /\ environ w' !! "TZ" = Some "UTC"
    /\ match chdir_to ce dir with
       | Some entered =>
           cwd w' = entered /\ environ w' !! "HOME" = Some entered
       | None =>
           cwd w' = cwd w /\ environ w' !! "HOME" = environ w !! "HOME"
       end.
Proof.
  destruct w as [flag acts progs env mask here self group ds ads tr].
  cbn [pgrp pid trace sigactions environ cwd]. intros ->.
  unfold isolate_process, sys_umask.
  unfold bind at 1. unfold get at 1. unfold bind at 1. unfold get at 1.
  cbn [pgrp pid]. rewrite Z.eqb_refl. unfold sanity. unfold bind at 1.
  unfold ret at 1. unfold bind at 1 2. unfold emit, modify at 1 2.
  unfold bind at 1. rewrite reset_loop_eq.
  unfold utils_unsetenv, utils_setenv, sys_chdir, fs_current_path.
  mrun.
  assert (Hsig : forall i : Z,
            reset_actions ce (seqZ 0 (last_signo ce + 1)) acts !! i
            = if bool_decide (0 <= i <= last_signo ce)
                 && negb (i =? SIGKILL) && negb (i =? SIGSTOP)
                 && reset_ok ce i
              then None else acts !! i).
  { intros i. rewrite reset_actions_lookup. unfold resettable.
    rewrite (bool_decide_ext (i ∈ seqZ 0 (last_signo ce + 1))
               (0 <= i <= last_signo ce))
      by (rewrite elem_of_seqZ; lia).
    by destruct (bool_decide _), (negb (i =? SIGKILL)),
      (negb (i =? SIGSTOP)), (reset_ok ce i). }
  destruct (chdir_to ce dir) as [entered|].
  - change (0 =? -1) with false. mrun. eexists. split; [reflexivity|].
    mrun. rewrite <- !app_assoc.
    repeat split; try done.
    + intros name Hname.
      destruct (locale_cleared env name Hname) as (Htz & Hhome & Hnone).
      by rewrite !lookup_insert_ne.
    + by rewrite lookup_insert_ne, lookup_insert_eq.
    + by rewrite lookup_insert_eq.
  - change (-1 =? -1) with true. mrun. eexists. split; [reflexivity|].
    mrun. rewrite <- !app_assoc.
    repeat split; try done.
    + intros name Hname.
      destruct (locale_cleared env name Hname) as (Htz & Hhome & Hnone).
      by rewrite !lookup_insert_ne.
    + by rewrite lookup_insert_eq.
    + rewrite lookup_insert_ne by done. by rewrite !lookup_delete_ne.
Qed.

(** ** Work-directory manager *)

Lemma length_append (a b : string) :
  String.length (a +:+ b) = (String.length a + String.length b)%nat.
Proof.
  induction a as [|c a IH]; [done|].
  rewrite append_cons. simpl. by rewrite IH.
Qed.

Lemma strip_template_stem (stem : string) :
  strip_template (stem +:+ "XXXXXX") = Some stem.
Proof.
  induction stem as [|c stem IH]; [done|].
  rewrite append_cons. cbn [strip_template]. rewrite IH.
  destruct (String.eqb_spec (String c (stem +:+ "XXXXXX")) "XXXXXX")
    as [Heq|_]; [|done].
  apply (f_equal String.length) in Heq. simpl in Heq.
  rewrite length_append in Heq. simpl in Heq. lia.
Qed.

Lemma find_free_suffix stem existing candidates s :
  List.find (free_suffix stem existing) candidates = Some s ->
  String.length s = 6%nat /\ (stem +:+ s) ∉ existing.
Proof.
  intros [_ H]%find_some. unfold free_suffix in H.
  apply andb_prop in H as [Hlen Hfree].
  split; [by apply Nat.eqb_eq | by apply bool_decide_eq_true in Hfree].
Qed.

(** C8. [create_work_directory] takes its base directory from TMPDIR when
    that variable is set and /tmp otherwise, makes in one step a directory
    named kyua. followed by six characters that did not exist under that
    base, returns its path, and raises a file-system error when no
    directory can be made. *)
Theorem create_work_directory_result r w :
  let base := work_directory_base w in
  let stem := base +:+ "/kyua." in
  (environ w !! "TMPDIR" = None -> base = "/tmp")
  /\ (forall dir, environ w !! "TMPDIR" = Some dir -> base = dir)
  /\ exists w' : world,
       trace w'
       = trace w ++ [EvMkdtemp (base +:+ "/kyua.XXXXXX")]
         ++ handler_writes (sigactions w) (signals r)
       /\ match answer r with
          | MkdtempFails what =>
              create_work_directory r w = (Throw (fs_error what), w')
              /\ dirs w' = dirs w
          | MkdtempNames candidates =>
              match List.find (free_suffix stem (dirs w)) candidates with
              | Some s =>
                  create_work_directory r w = (Ret (stem +:+ s), w')
                  /\ String.length s = 6%nat
                  /\ ((stem +:+ s) ∉ dirs w)
                  /\ dirs w' = {[stem +:+ s]} ∪ dirs w
              | None =>
                  (exists what,
                     create_work_directory r w = (Throw (fs_error what), w'))
                  /\ dirs w' = dirs w
              end
          end.
Proof.
  intros base stem. split; [|split].
  { unfold base, work_directory_base. by intros ->. }
  { unfold base, work_directory_base. by intros dir ->. }
  assert (Hrun : create_work_directory r w
                 = fs_mkdtemp r (base +:+ "/kyua.XXXXXX") w).
  { unfold create_work_directory, getenv, base, work_directory_base.
    unfold bind, get. by destruct (environ w !! "TMPDIR"). }
  assert (Hstem : strip_template (base +:+ "/kyua.XXXXXX") = Some stem).
  { unfold stem. rewrite <- strip_template_stem. by rewrite append_assoc. }
  rewrite Hrun. clearbody stem base. clear Hrun.
  destruct w as [flag acts progs env mask here self group ds ads tr].
  unfold fs_mkdtemp. mrun. rewrite deliver_all_eq, Hstem. mrun.
  destruct (answer r) as [candidates|what].
  - destruct (List.find (free_suffix stem ds) candidates) as [s|] eqn:Hfind.
    + apply find_free_suffix in Hfind as [Hlen Hfree].
      eexists. split; [|split; [reflexivity|done]].
      mrun. by rewrite <- app_assoc.
    + eexists. split; [|split; [eexists; reflexivity|reflexivity]].
      mrun. by rewrite <- app_assoc.
  - eexists. split; [|split; reflexivity].
    mrun. by rewrite <- app_assoc.
Qed.

(** ** The child's body *)

Lemma execute_test_case_call_halts (run : M unit) w :
  exists h w', execute_test_case_call run w = (Halt h, w').
Proof.
  unfold execute_test_case_call, bind, try_catch.
  destruct (run w) as [[[]|e|h] w1]; [by eexists _, _| |by eexists _, _].
  destruct (is_runtime_error e); unfold cerr, emit, modify, stop;
    by eexists _, _.
Qed.

Lemma execute_test_case_call_throw (run : M unit) w e w1 :
  run w = (Throw e, w1) ->
  execute_test_case_call run w
  = (Halt Abort,
     set_trace (trace w1 ++ [EvWrite STDERR_FILENO (setup_failure_report e)])
       w1).
Proof.
  intros Hrun.
  unfold execute_test_case_call, bind, try_catch, setup_failure_report.
  rewrite Hrun. destruct (is_runtime_error e); reflexivity.
Qed.

(** C6. The child's body never returns to its caller: every run of
    [execute_test_case] stops the process.  When the exec is refused it
    prints a diagnostic and exits with code 120; any exception that
    escapes the isolation or the setup is reported on the error stream and
    followed by an abort. *)
Theorem execute_test_case_never_returns ce tc dir w :
  (exists h w', execute_test_case ce tc dir w = (Halt h, w'))
  /\ (forall what errno w1,
        exec_refusal ce = Some (what, errno) ->
        isolate_process ce dir w = (Ret tt, w1) ->
        execute_test_case ce tc dir w
        = (Halt (Exit 120),
           set_trace
             (trace w1 ++
              [EvExecve (abs_test_program tc w) [];
               EvWrite STDERR_FILENO
                 ("Failed to execute test program: " +:+ what +:+ nl)])
             w1))
  /\ (forall e w1,
        isolate_process ce dir w = (Throw e, w1) ->
        safe_run ce tc dir w = (Throw e, w1))
  /\ (forall e w1,
        safe_run ce tc dir w = (Throw e, w1) ->
        execute_test_case ce tc dir w
        = (Halt Abort,
           set_trace
             (trace w1 ++ [EvWrite STDERR_FILENO (setup_failure_report e)])
             w1)).
Proof.
  split; [apply execute_test_case_call_halts|].
  assert (Hsafe : safe_run ce tc dir w
    = (isolate_process ce dir;;
       try_catch
         (process_exec (exec_refusal ce) (abs_test_program tc w) [])
         (fun e =>
            match e with
            | process_system_error what _ =>
                Some (cerr ("Failed to execute test program: " +:+ what
                            +:+ nl);;
                      stop (Exit exec_failure_code))
            | _ => None
            end)) w).
  { unfold safe_run, abs_test_program, to_absolute, fs_current_path.
    destruct (is_absolute _); reflexivity. }
  split; [|split].
  - intros what errno w1 Hexec Hiso.
    unfold execute_test_case, execute_test_case_call.
    unfold bind at 1. unfold try_catch at 1. rewrite Hsafe.
    unfold bind at 1. rewrite Hiso, Hexec.
    destruct w1. unfold process_exec. mrun. by rewrite <- app_assoc.
  - intros e w1 Hiso. rewrite Hsafe. unfold bind. by rewrite Hiso.
  - intros e w1 Hrun. by apply execute_test_case_call_throw.
Qed.

(** ** The public entry point *)

(** C4. No exception other than the interruption escapes [do_run]: any
    other exception of the run is turned into a broken result that carries
    the exception's message, and the call returns that result. *)
Theorem do_run_catches_all sc tc w :
  let w0 :=
    set_trace
      (trace w ++
       [EvLog Info ("Processing test case '" +:+ identifier tc +:+ "'")]) w in
  (forall e w', do_run sc tc w = (Throw e, w') ->
     exists signo, e = interrupted_error signo
                   /\ run_test_case_safe sc tc w0 = (Throw e, w'))
  /\ (forall e w1,
        run_test_case_safe sc tc w0 = (Throw e, w1) ->
        is_interrupted e = false ->
        do_run sc tc w
        = (Ret (broken ("The test caused an error in the runtime system: "
                        +:+ exn_what e)), w1)).
Proof.
  intros w0.
  assert (Hrun : do_run sc tc w
    = match run_test_case_safe sc tc w0 with
      | (Ret r, w1) => (Ret r, w1)
      | (Throw e, w1) =>
          if is_interrupted e then (Throw e, w1)
          else (Ret (broken
                       ("The test caused an error in the runtime system: "
                        +:+ exn_what e)), w1)
      | (Halt h, w1) => (Halt h, w1)
      end).
  { unfold do_run, LI, bind, emit, modify, try_catch. subst w0.
    destruct (run_test_case_safe sc tc _) as [[r|e|h] w1]; try reflexivity.
    by destruct e. }
  rewrite Hrun. split.
  - intros e w'.
    destruct (run_test_case_safe sc tc w0) as [[r|e0|h] w1]; [done| |done].
    destruct e0; simpl; intros [= <- <-]; eauto.
  - intros e w1 -> ->. done.
Qed.

(** ** Invariants of monadic code *)

Section Respects.
Variable inv : world -> Prop.
Variable thrown : exn -> Prop.

Lemma respects_ret {A} (a : A) : respects inv thrown (ret a).
Proof. intros w Hw. by split. Qed.

Lemma respects_get {A} (f : world -> A) : respects inv thrown (get f).
Proof. intros w Hw. by split. Qed.

Lemma respects_stop {A} (h : halt) : respects inv thrown (@stop A h).
Proof. intros w Hw. by split. Qed.

Lemma respects_throw {A} (e : exn) :
  thrown e -> respects inv thrown (@throw A e).
Proof. intros He w Hw. split; [done|]. by intros ? [= <-]. Qed.

Lemma respects_sanity what cond : respects inv thrown (sanity what cond).
Proof. destruct cond; [apply respects_ret | apply respects_stop]. Qed.

Lemma respects_modify (f : world -> world) :
  (forall w, inv w -> inv (f w)) -> respects inv thrown (modify f).
Proof. intros Hf w Hw. split; [by apply Hf | done]. Qed.

Lemma respects_bind {A B} (m : M A) (k : A -> M B) :
  respects inv thrown m -> (forall a, respects inv thrown (k a)) ->
  respects inv thrown (bind m k).
Proof.
  intros Hm Hk w Hw. destruct (Hm w Hw) as [Hinv Hthrow].
  unfold bind. destruct (m w) as [[a|e|h] w1]; simpl in *.
  - by apply Hk.
  - split; [done|]. intros ? [= <-]. by apply Hthrow.
  - by split.
Qed.

Lemma respects_try_catch {A} (m : M A) (handler : exn -> option (M A)) :
  respects inv thrown m ->
  (forall e h, thrown e -> handler e = Some h -> respects inv thrown h) ->
  respects inv thrown (try_catch m handler).
Proof.
  intros Hm Hh w Hw. destruct (Hm w Hw) as [Hinv Hthrow].
  unfold try_catch. destruct (m w) as [[a|e|h] w1]; simpl in *;
    [by split| |by split].
  destruct (handler e) as [h|] eqn:He.
  - by apply (Hh e h); [apply Hthrow| |].
  - split; [done|]. intros ? [= <-]. by apply Hthrow.
Qed.

Lemma respects_scope_exit {A} (body : M A) (dtor : M unit) :
  respects inv thrown body -> respects inv (fun _ => True) dtor ->
  respects inv thrown (scope_exit body dtor).
Proof.
  intros Hb Hd w Hw. destruct (Hb w Hw) as [Hinv Hthrow].
  unfold scope_exit. destruct (body w) as [[a|e|h] w1]; simpl in *;
    [| |by split].
  - destruct (Hd w1 Hinv) as [Hinv' _].
    destruct (dtor w1) as [[[]|e'|h'] w2]; by split.
  - destruct (Hd w1 Hinv) as [Hinv' _].
    destruct (dtor w1) as [[[]|e'|h'] w2]; simpl in *; split; try done.
    all: intros ? [= <-]; by apply Hthrow.
Qed.

Lemma respects_for_each {A} (l : list A) (body : A -> M unit) :
  (forall x, respects inv thrown (body x)) ->
  respects inv thrown (for_each l body).
Proof.
  intros Hb. induction l as [|x l IH]; [apply respects_ret|].
  simpl. apply respects_bind; [apply Hb | by intros _].
Qed.
End Respects.

(** Invariants that depend on the interrupt flag, on the live
    work-directory objects and on the trace only, and that no event other
    than the handler's message disturbs; for scenarios whose signals are
    all [allowed]. *)
Section StateInvariant.
Variable inv : world -> Prop.
Variable thrown : exn -> Prop.
Variable allowed : list Z -> Prop.

Hypothesis inv_same :
  forall w w', interrupted_signo w' = interrupted_signo w ->
               auto_dirs w' = auto_dirs w -> trace w' = trace w ->
               inv w -> inv w'.
Hypothesis inv_emit :
  forall e w, is_handler_write e = false -> inv w ->
              inv (set_trace (trace w ++ [e]) w).
Hypothesis inv_delivered :
  forall sigs w, allowed sigs -> inv w -> inv (delivered sigs w).
Hypothesis thrown_pending :
  forall w, inv w -> interrupted_signo w <> 0 ->
            thrown (interrupted_error (interrupted_signo w)).
Hypothesis thrown_other : forall e, is_interrupted e = false -> thrown e.

Lemma inv_respects_modify (f : world -> world) any :
  (forall w, interrupted_signo (f w) = interrupted_signo w
             /\ auto_dirs (f w) = auto_dirs w
             /\ trace (f w) = trace w) ->
  respects inv any (modify f).
Proof.
  intros Hf. apply respects_modify. intros w.
  by apply inv_same; apply Hf.
Qed.

Lemma inv_respects_emit e any :
  is_handler_write e = false -> respects inv any (emit e).
Proof. intros He. apply respects_modify. intros w. by apply inv_emit. Qed.

Lemma inv_respects_deliver_all sigs any :
  allowed sigs -> respects inv any (deliver_all sigs).
Proof.
  intros Hs w Hw. rewrite deliver_all_eq. split; [|done].
  by apply inv_delivered.
Qed.

Lemma inv_respects_check_interrupt : respects inv thrown check_interrupt.
Proof.
  intros w Hw. unfold check_interrupt, LD, LI, bind, emit, modify, get.
  simpl. destruct (Z.eqb_spec (interrupted_signo w) 0) as [Hz|Hnz]; simpl.
  - split; [by apply inv_emit|done].
  - split; [by apply inv_emit; [|apply inv_emit]|]. intros e [= <-].
    by apply thrown_pending.
Qed.

Ltac leaf :=
  first [ apply respects_ret | apply respects_get | apply respects_stop
        | apply respects_sanity
        | apply inv_respects_emit; reflexivity
        | apply inv_respects_check_interrupt
        | apply inv_respects_deliver_all; assumption
        | apply inv_respects_modify; intros []; repeat split; reflexivity
        | apply respects_throw; solve [auto using thrown_other] ].

Ltac walk :=
  repeat first
    [ leaf
    | apply respects_bind | apply respects_try_catch
    | apply respects_scope_exit | apply respects_for_each
    | progress intros
    | progress simplify_eq
    | case_match ].

Lemma inv_respects_unprogram signo any :
  respects inv any (programmer_unprogram signo).
Proof. unfold programmer_unprogram. walk. Qed.

Lemma inv_respects_unprogram_all any : respects inv any unprogram_all.
Proof. unfold unprogram_all. walk; apply inv_respects_unprogram. Qed.

Lemma inv_respects_programmer {A} signo handler (body : M A) :
  respects inv thrown body ->
  respects inv thrown (with_programmer signo handler body).
Proof.
  intros Hb. unfold with_programmer, programmer_ctor, programmer_dtor.
  walk; try apply inv_respects_unprogram. done.
Qed.

Lemma inv_respects_fork_and_wait rf rw rr hook outfile errfile :
  allowed (signals rf) -> allowed (wait_signals rw) ->
  allowed (wait_late rw) -> allowed (signals rr) ->
  respects inv thrown (fork_and_wait rf rw rr hook outfile errfile).
Proof.
  intros Hf Hw Hl Hr.
  unfold fork_and_wait, child_fork, child_wait_timeout, child_wait,
    sys_kill.
  walk.
Qed.

Variable sc : scenario.
Variable tc : test_case.
Hypothesis allowed_mkdir : allowed (signals (sc_mkdir sc)).
Hypothesis allowed_fork : allowed (signals (sc_fork sc)).
Hypothesis allowed_wait : allowed (wait_signals (sc_wait sc)).
Hypothesis allowed_late : allowed (wait_late (sc_wait sc)).
Hypothesis allowed_reap : allowed (signals (sc_reap sc)).

Lemma inv_respects_workdir dir :
  respects inv thrown (run_test_case_safe_workdir sc tc dir).
Proof.
  unfold run_test_case_safe_workdir, fs_mkdir, LI.
  walk; by apply inv_respects_fork_and_wait.
Qed.

(** From here on the invariant does not depend on the work-directory
    objects either. *)
Hypothesis inv_auto_dirs :
  forall live w, inv w -> inv (set_auto_dirs live w).
Hypothesis allowed_mkdtemp : allowed (signals (sc_mkdtemp sc)).
Hypothesis allowed_cleanup : allowed (signals (sc_cleanup sc)).

Ltac walk_all :=
  repeat first
    [ leaf
    | apply respects_modify; intros ?; apply inv_auto_dirs
    | apply respects_bind | apply respects_try_catch
    | apply respects_scope_exit | apply respects_for_each
    | progress intros
    | progress simplify_eq
    | case_match ].

Lemma inv_respects_run_test_case_safe :
  respects inv thrown (run_test_case_safe sc tc).
Proof. unfold run_test_case_safe. walk_all. Qed.

Lemma inv_respects_do_run : respects inv thrown (do_run sc tc).
Proof. unfold do_run. walk_all. Qed.
End StateInvariant.

(** Once set, the flag stays set: nothing in a run clears it. *)
Lemma run_test_case_safe_sticky sc tc w :
  interrupted_signo w <> 0 ->
  interrupted_signo (snd (run_test_case_safe sc tc w)) <> 0.
Proof.
  intros Hw.
  apply (inv_respects_run_test_case_safe
           (fun w => interrupted_signo w <> 0) (fun _ => True)
           (fun _ => True)); try done.
  - intros w1 w2 Hflag _ _. by rewrite Hflag.
  - intros sigs w1 _. apply flag_after_sticky.
Qed.

(** A run that starts with an empty flag and is never signaled ends with
    an empty flag and raises no interruption. *)
Lemma do_run_calm sc tc w :
  quiet sc -> interrupted_signo w = 0 ->
  interrupted_signo (snd (do_run sc tc w)) = 0
  /\ forall e, fst (do_run sc tc w) = Throw e -> is_interrupted e = false.
Proof.
  intros (Hq1 & Hq2 & Hq3 & Hq4 & Hq5 & Hq6 & Hq7) Hw.
  apply (inv_respects_do_run
           (fun w => interrupted_signo w = 0)
           (fun e => is_interrupted e = false)
           (fun sigs => sigs = [])); try done.
  - intros w1 w2 Hflag _ _. by rewrite Hflag.
  - by intros sigs w1 ->.
Qed.

(** ** The interrupt flag across runs *)

(** C9, as the code has it.  Programming the handlers leaves the interrupt
    flag as it was: no run resets it.  A run that is entered with an empty
    flag and is never signaled keeps the flag empty and raises no
    interruption. *)
Theorem interrupt_flag_not_reset sc tc w :
  interrupted_signo (snd (program_handlers w)) = interrupted_signo w
  /\ (quiet sc -> interrupted_signo w = 0 ->
      interrupted_signo (snd (do_run sc tc w)) = 0
      /\ forall signo,
           fst (do_run sc tc w) <> Throw (interrupted_error signo)).
Proof.
  split; [by destruct w|].
  intros Hq Hw. destruct (do_run_calm sc tc w Hq Hw) as [Hflag Hthrow].
  split; [done|]. intros signo Hs. by apply Hthrow in Hs.
Qed.

Lemma interrupt_flag_not_reset_witness :
  interrupted_signo (snd (program_handlers fresh_process))
  = interrupted_signo fresh_process
  /\ interrupted_signo (snd (do_run (run_exits 0) sample_test fresh_process))
     = 0
  /\ forall signo,
       fst (do_run (run_exits 0) sample_test fresh_process)
       <> Throw (interrupted_error signo).
Proof.
  destruct (interrupt_flag_not_reset (run_exits 0) sample_test fresh_process)
    as [Hprog Hrun].
  split; [exact Hprog|]. apply Hrun; [|reflexivity].
  repeat split; reflexivity.
Defined.

(** C9, as the specification words it, fails: after a run that was
    interrupted by SIGINT, the next run finds the flag set once its
    handlers are programmed, and raises an interruption although no signal
    arrives during it. *)
Lemma stale_interrupt_observed :
  let w1 := snd (do_run run_interrupted sample_test fresh_process) in
  interrupted_signo fresh_process = 0
  /\ quiet (run_exits 0)
  /\ interrupted_signo (snd (program_handlers w1)) = SIGINT
  /\ fst (do_run (run_exits 0) sample_test w1)
     = Throw (interrupted_error SIGINT).
Proof.
  split; [reflexivity|]. split; [by repeat split|].
  split; vm_compute; reflexivity.
Qed.

Lemma handler_writes_caught actions sigs :
  existsb is_handler_write (handler_writes actions sigs) = true ->
  existsb (caught actions) sigs = true.
Proof.
  unfold handler_writes. induction sigs as [|s sigs IH]; [done|].
  simpl. destruct (caught actions s); [done|]. apply IH.
Qed.

(** The handler's message appears in the trace of a run only together
    with a set flag. *)
Lemma run_test_case_safe_records sc tc w :
  exists evs,
    trace (snd (run_test_case_safe sc tc w)) = trace w ++ evs
    /\ (existsb is_handler_write evs = true ->
        interrupted_signo (snd (run_test_case_safe sc tc w)) <> 0).
Proof.
  apply (inv_respects_run_test_case_safe
           (fun w1 => exists evs,
              trace w1 = trace w ++ evs
              /\ (existsb is_handler_write evs = true ->
                  interrupted_signo w1 <> 0))
           (fun _ => True) (fun _ => True)); try done.
  - intros w1 w2 Hflag _ Htrace (evs & Hevs & Himp).
    exists evs. by rewrite Hflag, Htrace.
  - intros e w1 He (evs & Hevs & Himp). exists (evs ++ [e]). simpl.
    split; [by rewrite Hevs, app_assoc|].
    rewrite existsb_app. simpl. rewrite He, !orb_false_r. apply Himp.
  - intros sigs w1 _ (evs & Hevs & Himp).
    exists (evs ++ handler_writes (sigactions w1) sigs). simpl.
    split; [by rewrite Hevs, app_assoc|].
    rewrite existsb_app. intros [Hold|Hnew]%orb_prop.
    + by apply flag_after_sticky, Himp.
    + by apply flag_after_caught, handler_writes_caught.
  - exists []. by rewrite app_nil_r.
Qed.

(** ** Inversion of runs that return *)

Lemma try_catch_ret_inv {A} (m : M A) handler w a w' :
  try_catch m handler w = (Ret a, w') ->
  m w = (Ret a, w')
  \/ exists e w1 h,
       m w = (Throw e, w1) /\ handler e = Some h /\ h w1 = (Ret a, w').
Proof.
  unfold try_catch. destruct (m w) as [[a1|e|h] w1]; [by left| |done].
  destruct (handler e) as [h|] eqn:He; [|done]. right. by exists e, w1, h.
Qed.

Lemma scope_exit_ret_inv {A} (body : M A) dtor w a w' :
  scope_exit body dtor w = (Ret a, w') ->
  exists w1, body w = (Ret a, w1) /\ snd (dtor w1) = w'.
Proof.
  unfold scope_exit. destruct (body w) as [[a1|e|h] w1]; [| |done].
  - destruct (dtor w1) as [[[]|e'|h'] w2] eqn:Hd; [| |done];
      intros [= <- <-]; exists w1; by rewrite Hd.
  - destruct (dtor w1) as [[[]|e'|h'] w2]; done.
Qed.

Lemma check_interrupt_ret w w' :
  check_interrupt w = (Ret tt, w') ->
  interrupted_signo w = 0 /\ w' = set_trace (trace w ++ [checking_log]) w.
Proof.
  destruct w. unfold check_interrupt. mrun.
  destruct (Z.eqb_spec interrupted_signo0 0); simpl; [|done].
  by intros [= <-].
Qed.

Lemma check_interrupt_pending w :
  interrupted_signo w <> 0 ->
  check_interrupt w
  = (Throw (interrupted_error (interrupted_signo w)),
     set_trace (trace w ++ [checking_log; pending_log]) w).
Proof.
  destruct w. unfold check_interrupt. mrun. intros Hnz.
  destruct (Z.eqb_spec interrupted_signo0 0); simpl; [done|].
  by rewrite <- app_assoc.
Qed.

Lemma programmer_dtor_absent signo w :
  programmers w !! signo = None -> programmer_dtor signo w = (Ret tt, w).
Proof.
  intros Hnone. unfold programmer_dtor, bind, get. rewrite Hnone.
  rewrite bool_decide_false; [done|]. by intros [? ?].
Qed.

Lemma programmer_unprogram_ret signo w w' :
  programmer_unprogram signo w = (Ret tt, w') ->
  programmers w' = delete signo (programmers w)
  /\ trace w' = trace w ++ [EvUnprogram signo]
  /\ interrupted_signo w' = interrupted_signo w
  /\ auto_dirs w' = auto_dirs w.
Proof.
  destruct w. unfold programmer_unprogram. mrun.
  destruct (programmers0 !! signo) as [old|]; [|done].
  by intros [= <-].
Qed.

Lemma unprogram_all_ret w w' :
  unprogram_all w = (Ret tt, w') ->
  programmers w' !! SIGHUP = None /\ programmers w' !! SIGINT = None
  /\ programmers w' !! SIGTERM = None
  /\ trace w'
     = trace w ++ [EvUnprogram SIGHUP; EvUnprogram SIGINT;
                   EvUnprogram SIGTERM]
  /\ interrupted_signo w' = interrupted_signo w
  /\ auto_dirs w' = auto_dirs w.
Proof.
  unfold unprogram_all.
  intros ([] & w1 & H1 & ([] & w2 & H2 & H3)%bind_ret_inv)%bind_ret_inv.
  apply programmer_unprogram_ret in H1 as (Hp1 & Ht1 & Hf1 & Ha1).
  apply programmer_unprogram_ret in H2 as (Hp2 & Ht2 & Hf2 & Ha2).
  apply programmer_unprogram_ret in H3 as (Hp3 & Ht3 & Hf3 & Ha3).
  rewrite Hp3, Hp2, Hp1, Ht3, Ht2, Ht1, Hf3, Hf2, Hf1, Ha3, Ha2, Ha1.
  rewrite <- !app_assoc. repeat split.
  - rewrite lookup_delete_ne, lookup_delete_ne by done.
    apply lookup_delete_eq.
  - rewrite lookup_delete_ne by done. apply lookup_delete_eq.
  - apply lookup_delete_eq.
Qed.

Lemma not_elem_of_removed (dir : string) (live : gset string) :
  dir ∉ live ∖ {[dir]}.
Proof. intros [_ Hn]%elem_of_difference. apply Hn. by apply elem_of_singleton. Qed.

Lemma cleanup_post r dir w :
  (dir ∉ auto_dirs (snd (auto_directory_cleanup r dir w)))
  /\ programmers (snd (auto_directory_cleanup r dir w)) = programmers w
  /\ interrupted_signo (snd (auto_directory_cleanup r dir w))
     = (if bool_decide (dir ∈ auto_dirs w)
        then flag_after (sigactions w) (signals r) (interrupted_signo w)
        else interrupted_signo w).
Proof.
  destruct w. unfold auto_directory_cleanup. mrun.
  destruct (bool_decide_reflect (dir ∈ auto_dirs0)) as [Hin|Hout].
  - mrun. rewrite deliver_all_eq. mrun.
    destruct (answer r); mrun; (split; [apply not_elem_of_removed|done]).
  - done.
Qed.

Lemma cleanup_fails r dir w what :
  answer r = Some what -> dir ∈ auto_dirs w ->
  fst (auto_directory_cleanup r dir w) = Throw (fs_error what).
Proof.
  intros Hr Hin. destruct w. unfold auto_directory_cleanup. mrun.
  rewrite bool_decide_true by done. mrun. rewrite deliver_all_eq. mrun.
  by rewrite Hr.
Qed.

Lemma auto_directory_dtor_absent r dir w :
  dir ∉ auto_dirs w -> auto_directory_dtor r dir w = (Ret tt, w).
Proof.
  intros Hout. unfold auto_directory_dtor, auto_directory_cleanup.
  unfold try_catch, bind, get. by rewrite bool_decide_false.
Qed.

(** Case analysis on the scripted answers and on the tests of the flag
    that block the evaluation. *)
Ltac mstep := mrun; repeat (rewrite deliver_all_eq; mrun).

Ltac mcase :=
  repeat (mstep;
          match goal with
          | |- context [match ?x with _ => _ end] =>
              lazymatch x with
              | context [match _ with _ => _ end] => fail
              | _ => destruct x eqn:?
              end
          end);
  mstep.

Lemma fork_and_wait_ret rf rw rr hook outfile errfile w st w' :
  fork_and_wait rf rw rr hook outfile errfile w = (Ret st, w') ->
  st = wait_outcome rw.
Proof.
  destruct w. unfold wait_outcome.
  unfold fork_and_wait, child_fork, child_wait_timeout, child_wait,
    sys_kill, check_interrupt.
  mcase; try done; by intros [= <- _].
Qed.

Lemma run_test_case_safe_workdir_ret sc tc dir w r w' :
  run_test_case_safe_workdir sc tc dir w = (Ret r, w') ->
  r = calculate_result (wait_outcome (sc_wait sc)).
Proof.
  unfold run_test_case_safe_workdir.
  intros ([] & w1 & _ & H)%bind_ret_inv.
  apply bind_ret_inv in H as ([] & w2 & _ & H).
  apply bind_ret_inv in H as ([] & w3 & _ & H).
  apply bind_ret_inv in H as (st & w4 & Hfork & H).
  apply bind_ret_inv in H as ([] & w5 & _ & H).
  apply fork_and_wait_ret in Hfork as ->. by injection H as <- _.
Qed.

(** The work directory stays registered for removal while the test case
    runs in it. *)
Lemma run_test_case_safe_workdir_keeps sc tc dir w :
  dir ∈ auto_dirs w ->
  dir ∈ auto_dirs (snd ((check_interrupt;;
                         run_test_case_safe_workdir sc tc dir) w)).
Proof.
  intros Hin.
  apply (respects_bind (fun w => dir ∈ auto_dirs w) (fun _ => True));
    [| |done].
  - apply inv_respects_check_interrupt; try done;
      intros w1 w2 _ Hlive _; by rewrite Hlive.
  - intros _.
    apply (inv_respects_workdir (fun w => dir ∈ auto_dirs w)
             (fun _ => True) (fun _ => True)); try done;
      intros w1 w2 _ Hlive _; by rewrite Hlive.
Qed.

Lemma run_in_workdir_ret sc tc dir w r w' :
  run_in_workdir sc tc dir w = (Ret r, w') ->
  (dir ∉ auto_dirs w')
  /\ (forall what,
        answer (sc_cleanup sc) = Some what -> dir ∈ auto_dirs w ->
        let r0 := calculate_result (wait_outcome (sc_wait sc)) in
        if good r0 then r = broken (cleanup_broken_reason what)
        else r = r0
             /\ exists w2,
                  w' = set_trace
                         (trace w2 ++ [EvLog Warning (cleanup_warning what)])
                         w2).
Proof.
  unfold run_in_workdir.
  intros [Hmain|(e & w1 & h & _ & Hh & Hrun)]%try_catch_ret_inv.
  2:{ destruct e; try done. injection Hh as <-.
      unfold bind in Hrun.
      destruct (auto_directory_cleanup _ _ _) as [[[]|?|?] ?]; [|done..].
      destruct (unprogram_all _) as [[[]|?|?] ?]; done. }
  pose proof (run_test_case_safe_workdir_keeps sc tc dir w) as Hkeep.
  unfold bind at 1 in Hkeep. unfold bind at 1 in Hmain.
  destruct (check_interrupt w) as [[[]|?|?] wa]; [|done..].
  unfold bind at 1 in Hmain.
  destruct (run_test_case_safe_workdir sc tc dir wa) as [[r0|?|?] w1]
    eqn:Hwork; [|done..].
  apply run_test_case_safe_workdir_ret in Hwork as ->.
  simpl in Hkeep.
  pose proof (cleanup_post (sc_cleanup sc) dir w1) as (Hgone & _ & _).
  apply try_catch_ret_inv in Hmain as [Hclean|(e & w2 & h & Hclean & Hh & Hrun)].
  - unfold bind in Hclean.
    destruct (auto_directory_cleanup (sc_cleanup sc) dir w1)
      as [[[]|?|?] w2] eqn:Hc; [|done..].
    injection Hclean as <- <-. split; [done|].
    intros what Hwhat Hin.
    pose proof (cleanup_fails _ _ w1 what Hwhat (Hkeep Hin)) as Hf.
    by rewrite Hc in Hf.
  - unfold bind in Hclean.
    destruct (auto_directory_cleanup (sc_cleanup sc) dir w1)
      as [[[]|e'|?] w3] eqn:Hc; [done| |done].
    injection Hclean as -> ->. simpl in Hgone.
    destruct e; try done. injection Hh as <-.
    assert (Hsame : auto_dirs w' = auto_dirs w2).
    { destruct (good _); [by injection Hrun as _ <-|].
      unfold LW, bind, emit, modify, ret in Hrun.
      by injection Hrun as _ <-. }
    split; [by rewrite Hsame|].
    intros what0 Hwhat Hin.
    pose proof (cleanup_fails _ _ w1 what0 Hwhat (Hkeep Hin)) as Hf.
    rewrite Hc in Hf. injection Hf as ->.
    destruct (good _).
    + by injection Hrun as <- _.
    + unfold LW, bind, emit, modify, ret in Hrun.
      injection Hrun as <- <-. split; [done|]. by exists w2.
Qed.

(** The path of a run that returns: the [try] statement yields the
    result, the handlers are un-programmed, the last checkpoint finds the
    flag empty, and the destructors have nothing left to do. *)
Lemma run_test_case_safe_ret sc tc w r w' :
  run_test_case_safe sc tc w = (Ret r, w') ->
  exists dir w5 w10,
    dir ∈ auto_dirs w5
    /\ run_in_workdir sc tc dir w5 = (Ret r, w10)
    /\ interrupted_signo w10 = 0
    /\ interrupted_signo w' = 0
    /\ trace w'
       = trace w10 ++ [EvUnprogram SIGHUP; EvUnprogram SIGINT;
                       EvUnprogram SIGTERM; checking_log].
Proof.
  unfold run_test_case_safe, with_programmer.
  intros ([] & w1 & _ & (wA & H & HdA)%scope_exit_ret_inv)%bind_ret_inv.
  apply bind_ret_inv in H as ([] & w2 & _ & (wB & H & HdB)%scope_exit_ret_inv).
  apply bind_ret_inv in H as ([] & w3 & _ & (wC & H & HdC)%scope_exit_ret_inv).
  apply bind_ret_inv in H as (dir & w4 & _ & H).
  unfold with_auto_directory in H.
  apply bind_ret_inv in H as ([] & w5 & Hctor & (w6 & H & HdD)%scope_exit_ret_inv).
  apply bind_ret_inv in H as (r0 & w8 & Hrun & H).
  apply bind_ret_inv in H as ([] & w9 & Hcheck & H).
  injection H as -> ->.
  unfold run_and_unprogram in Hrun.
  apply bind_ret_inv in Hrun as (r1 & w10 & Hrun & H).
  apply bind_ret_inv in H as ([] & w11 & Hunprog & H).
  injection H as -> ->.
  apply unprogram_all_ret in Hunprog as (Hp1 & Hp2 & Hp3 & Htr & Hfl & Had).
  apply check_interrupt_ret in Hcheck as [Hzero ->].
  pose proof (run_in_workdir_ret _ _ _ _ _ _ Hrun) as [Hgone _].
  rewrite auto_directory_dtor_absent in HdD by (simpl; by rewrite Had).
  simpl in HdD. subst wC.
  rewrite programmer_dtor_absent in HdC by done. simpl in HdC. subst wB.
  rewrite programmer_dtor_absent in HdB by done. simpl in HdB. subst wA.
  rewrite programmer_dtor_absent in HdA by done. simpl in HdA. subst w'.
  exists dir, w5, w10. repeat split; try done.
  - unfold auto_directory_ctor, modify in Hctor. injection Hctor as <-.
    simpl. apply elem_of_union. left. by apply elem_of_singleton.
  - by rewrite <- Hfl.
  - simpl. rewrite Htr, <- app_assoc. done.
Qed.

Lemma scope_exit_throw {A} (body : M A) dtor w e w1 :
  body w = (Throw e, w1) -> dtor w1 = (Ret tt, w1) ->
  scope_exit body dtor w = (Throw e, w1).
Proof. unfold scope_exit. by intros -> ->. Qed.

Lemma programmer_ctor_ret signo handler w :
  exists w1, programmer_ctor signo handler w = (Ret tt, w1).
Proof. unfold programmer_ctor, bind, get, emit, modify. by eexists. Qed.

(** What [enter_work_directory] went through when it returns. *)
Lemma enter_work_directory_ret sc w dir w1 :
  enter_work_directory sc w = (Ret dir, w1) ->
  exists wa wb wp wd,
    programmer_ctor SIGHUP InterruptHandler w = (Ret tt, wa)
    /\ programmer_ctor SIGINT InterruptHandler wa = (Ret tt, wb)
    /\ programmer_ctor SIGTERM InterruptHandler wb = (Ret tt, wp)
    /\ create_work_directory (sc_mkdtemp sc) wp = (Ret dir, wd)
    /\ auto_directory_ctor dir wd = (Ret tt, w1).
Proof.
  unfold enter_work_directory, program_handlers.
  intros ([] & wp & Hprog & Henter)%bind_ret_inv.
  apply bind_ret_inv in Hprog as ([] & wa & Hp1 & Hprog).
  apply bind_ret_inv in Hprog as ([] & wb & Hp2 & Hp3).
  apply bind_ret_inv in Henter as (dir' & wd & Hmk & Henter).
  apply bind_ret_inv in Henter as ([] & we & Hctor & Henter).
  injection Henter as -> ->. by exists wa, wb, wp, wd.
Qed.

(** Once [run_and_unprogram] has returned, no destructor of
    [run_test_case_safe] has anything left to do. *)
Lemma run_and_unprogram_ret sc tc dir w r w' :
  run_and_unprogram sc tc dir w = (Ret r, w') ->
  programmers w' !! SIGHUP = None /\ programmers w' !! SIGINT = None
  /\ programmers w' !! SIGTERM = None /\ dir ∉ auto_dirs w'.
Proof.
  unfold run_and_unprogram.
  intros (r1 & w10 & Hin & H)%bind_ret_inv.
  apply bind_ret_inv in H as ([] & w11 & Hunprog & H).
  injection H as -> ->.
  apply unprogram_all_ret in Hunprog as (Hq1 & Hq2 & Hq3 & _ & _ & Had).
  apply run_in_workdir_ret in Hin as [Hgone _].
  repeat split; try done. by rewrite Had.
Qed.

(** ** The orchestrator *)

(** C5. When the removal of the work directory fails after the result of
    the test has been computed and the run returns a result: a passed
    result has become broken with a reason that contains the error text of
    the removal; a failed or broken result is returned as it was and the
    failure of the removal is only logged. *)
Theorem cleanup_failure_after_result sc tc w what r w' :
  answer (sc_cleanup sc) = Some what ->
  run_test_case_safe sc tc w = (Ret r, w') ->
  let r0 := calculate_result (wait_outcome (sc_wait sc)) in
  (good r0 = true ->
     r = broken (cleanup_broken_reason what)
     /\ contains (cleanup_broken_reason what) what)
  /\ (good r0 = false ->
        r = r0 /\ EvLog Warning (cleanup_warning what) ∈ trace w').
Proof.
  intros Hwhat Hrun r0.
  apply run_test_case_safe_ret in Hrun
    as (dir & w5 & w10 & Hin & Hrun & _ & _ & Htrace).
  apply run_in_workdir_ret in Hrun as [_ Hres].
  specialize (Hres what Hwhat Hin). simpl in Hres. fold r0 in Hres.
  split; intros Hgood; rewrite Hgood in Hres.
  - split; [done | apply contains_suffix].
  - destruct Hres as [-> (w2 & ->)]. split; [done|].
    rewrite Htrace. simpl. rewrite !elem_of_app. left. right.
    by apply list_elem_of_singleton.
Qed.

(** C10. [run_test_case_safe] returns a result only when the last
    checkpoint, which comes after the handlers have been un-programmed,
    finds the interrupt flag empty: the flag was then empty all along and
    the handler never ran.  When the result has been computed and the
    handlers un-programmed but the flag is set, the call raises the
    interruption and the result is dropped. *)
Theorem final_checkpoint_guards_result sc tc w :
  (forall r w',
     run_test_case_safe sc tc w = (Ret r, w') ->
     interrupted_signo w = 0 /\ interrupted_signo w' = 0
     /\ (exists pre,
           trace w'
           = pre ++ [EvUnprogram SIGHUP; EvUnprogram SIGINT;
                     EvUnprogram SIGTERM; checking_log])
     /\ (exists evs,
           trace w' = trace w ++ evs
           /\ existsb is_handler_write evs = false))
  /\ (forall dir w1 r w2,
        enter_work_directory sc w = (Ret dir, w1) ->
        run_and_unprogram sc tc dir w1 = (Ret r, w2) ->
        interrupted_signo w2 <> 0 ->
        run_test_case_safe sc tc w
        = (Throw (interrupted_error (interrupted_signo w2)),
           set_trace (trace w2 ++ [checking_log; pending_log]) w2)).
Proof.
  split.
  - intros r w' Hrun.
    pose proof (run_test_case_safe_sticky sc tc w) as Hsticky.
    destruct (run_test_case_safe_records sc tc w) as (evs & Hevs & Hrec).
    rewrite Hrun in Hsticky, Hevs, Hrec. simpl in *.
    apply run_test_case_safe_ret in Hrun
      as (dir & w5 & w10 & _ & _ & _ & Hzero & Htrace).
    split; [|split; [done|split]].
    + destruct (decide (interrupted_signo w = 0)) as [|Hnz]; [done|].
      by apply Hsticky in Hnz.
    + by eexists.
    + exists evs. split; [done|].
      destruct (existsb is_handler_write evs); [|done].
      by destruct Hrec.
  - intros dir w1 r w2 Henter Hrun Hflag.
    apply enter_work_directory_ret in Henter
      as (wa & wb & wp & wd & Hp1 & Hp2 & Hp3 & Hmk & Hctor).
    destruct (run_and_unprogram_ret _ _ _ _ _ _ Hrun)
      as (Hq1 & Hq2 & Hq3 & Hgone).
    unfold run_test_case_safe, with_programmer.
    rewrite (bind_run _ _ _ _ _ Hp1).
    apply scope_exit_throw; [|by apply programmer_dtor_absent].
    rewrite (bind_run _ _ _ _ _ Hp2).
    apply scope_exit_throw; [|by apply programmer_dtor_absent].
    rewrite (bind_run _ _ _ _ _ Hp3).
    apply scope_exit_throw; [|by apply programmer_dtor_absent].
    rewrite (bind_run _ _ _ _ _ Hmk). unfold with_auto_directory.
    rewrite (bind_run _ _ _ _ _ Hctor).
    apply scope_exit_throw; [|by apply auto_directory_dtor_absent].
    rewrite (bind_run _ _ _ _ _ Hrun).
    by rewrite (bind_throw _ _ _ _ _ (check_interrupt_pending w2 Hflag)).
Qed.

(** C3. The interruption is lost when the forced removal of the work
    directory fails: with SIGINT delivered during the wait and a work
    directory that cannot be removed, [check_interrupt] raises the
    interruption inside the run, the file-system error of the clean-up in
    the handler replaces it, and [do_run] returns a broken result; with a
    removable work directory the same run re-raises the interruption. *)
Theorem interruption_lost_when_cleanup_fails :
  do_run run_interrupted_dirty sample_test fresh_process
  = (Ret (broken
            "The test caused an error in the runtime system: Permission denied"),
     snd (do_run run_interrupted_dirty sample_test fresh_process))
  /\ interrupted_signo
       (snd (do_run run_interrupted_dirty sample_test fresh_process))
     = SIGINT
  /\ trace (snd (do_run run_interrupted_dirty sample_test fresh_process))
     = [EvLog Info "Processing test case 'prog:main'";
        EvProgram SIGHUP; EvProgram SIGINT; EvProgram SIGTERM;
        EvMkdtemp "/tmp/kyua.XXXXXX"; checking_log;
        EvMkdir "/tmp/kyua.abcdef/run" mode_0755; checking_log;
        EvLog Info "Running test case 'prog:main'";
        EvFork 101 "/tmp/kyua.abcdef/stdout.txt"
          "/tmp/kyua.abcdef/stderr.txt";
        EvWait 101 (Some (60, 0));
        EvWrite STDERR_FILENO signal_caught_message;
        EvKill 101 SIGKILL; EvWait 101 None; checking_log; pending_log;
        EvCleanup "/tmp/kyua.abcdef";
        EvUnprogram SIGTERM; EvUnprogram SIGINT; EvUnprogram SIGHUP]
  /\ fst (do_run run_interrupted sample_test fresh_process)
     = Throw (interrupted_error SIGINT).
Proof.
  split; [|split; [|split]]; vm_compute; reflexivity.
Qed.

(** ** Instances of the statements *)

Lemma calculate_result_mapping_witness :
  calculate_result (Some (Exited 1)) = failed "Exited with code 1"
  /\ contains "Exited with code 1" "1".
Proof.
  destruct calculate_result_mapping as (_ & _ & _ & Hother & _).
  apply (Hother 1); [lia | unfold exec_failure_code; lia].
Defined.


Lemma do_run_catches_all_witness :
  do_run run_mkdir_fails sample_test fresh_process
  = (Ret (broken ("The test caused an error in the runtime system: "
                  +:+ exn_what (fs_error "No space left on device"))),
     snd (do_run run_mkdir_fails sample_test fresh_process)).
Proof.
  destruct (do_run_catches_all run_mkdir_fails sample_test fresh_process)
    as [_ Hcaught].
  apply (Hcaught (fs_error "No space left on device")); vm_compute;
    reflexivity.
Defined.

Lemma cleanup_failure_after_result_witness :
  (exists r w',
     run_test_case_safe (run_exits_dirty 0) sample_test fresh_process
     = (Ret r, w')
     /\ r = broken (cleanup_broken_reason "Permission denied")
     /\ contains (cleanup_broken_reason "Permission denied")
          "Permission denied")
  /\ (exists r w',
        run_test_case_safe (run_exits_dirty 1) sample_test fresh_process
        = (Ret r, w')
        /\ r = failed "Exited with code 1"
        /\ EvLog Warning (cleanup_warning "Permission denied") ∈ trace w').
Proof.
  split.
  - eexists _, _. split; [vm_compute; reflexivity|].
    eapply (cleanup_failure_after_result (run_exits_dirty 0) sample_test
              fresh_process "Permission denied");
      vm_compute; reflexivity.
  - eexists _, _. split; [vm_compute; reflexivity|].
    eapply (cleanup_failure_after_result (run_exits_dirty 1) sample_test
              fresh_process "Permission denied");
      vm_compute; reflexivity.
Defined.

Lemma execute_test_case_never_returns_witness :
  execute_test_case refusing_child sample_test "/tmp/kyua.abcdef/run"
    fresh_process
  = (Halt (Exit 120),
     snd (execute_test_case refusing_child sample_test "/tmp/kyua.abcdef/run"
            fresh_process)).
Proof.
  destruct (execute_test_case_never_returns refusing_child sample_test
              "/tmp/kyua.abcdef/run" fresh_process)
    as (_ & Hexec & _).
  rewrite (Hexec "No such file or directory" 2
             (snd (isolate_process refusing_child "/tmp/kyua.abcdef/run"
                     fresh_process)));
    vm_compute; reflexivity.
Defined.

Lemma isolate_process_steps_witness :
  exists w' : world,
    fst (isolate_process plain_child "/tmp/kyua.abcdef/run" fresh_process)
    = Ret tt
    /\ snd (isolate_process plain_child "/tmp/kyua.abcdef/run" fresh_process)
       = w'
    /\ file_mode_mask w' = 18
    /\ environ w' !! "TZ" = Some "UTC".
Proof.
  destruct (isolate_process_steps plain_child "/tmp/kyua.abcdef/run"
              fresh_process)
    as (w' & Hrun & _ & Hmask & _ & _ & Htz & _);
    [vm_compute; reflexivity|].
  exists w'. rewrite Hrun.
  split; [vm_compute; reflexivity|]. split; [reflexivity|].
  split; [exact Hmask | exact Htz].
Defined.

Lemma create_work_directory_result_witness :
  work_directory_base fresh_process = "/tmp".
Proof.
  destruct (create_work_directory_result
              (sc_mkdtemp (run_exits 0)) fresh_process)
    as (Hdefault & _).
  apply Hdefault. vm_compute. reflexivity.
Defined.

Lemma final_checkpoint_guards_result_witness :
  (interrupted_signo fresh_process = 0
   /\ interrupted_signo
        (snd (run_test_case_safe (run_exits 0) sample_test fresh_process))
      = 0)
  /\ fst (run_test_case_safe run_signaled_late sample_test fresh_process)
     = Throw (interrupted_error SIGTERM).
Proof.
  split.
  - destruct (final_checkpoint_guards_result (run_exits 0) sample_test
                fresh_process) as [Hret _].
    destruct (Hret passed
                (snd (run_test_case_safe (run_exits 0) sample_test
                        fresh_process)))
      as (Hw & Hw' & _); [vm_compute; reflexivity|].
    split; [exact Hw | exact Hw'].
  - destruct (final_checkpoint_guards_result run_signaled_late sample_test
                fresh_process) as [_ Hdrop].
    rewrite (Hdrop "/tmp/kyua.abcdef"
               (snd (enter_work_directory run_signaled_late fresh_process))
               passed
               (snd (run_and_unprogram run_signaled_late sample_test
                       "/tmp/kyua.abcdef"
                       (snd (enter_work_directory run_signaled_late
                               fresh_process)))));
      [vm_compute; reflexivity | vm_compute; reflexivity
       | vm_compute; reflexivity | vm_compute; discriminate].
Defined.

(** * Further properties *)

(** ** Outcome classifier *)

Lemma format_int_inj (a b : Z) : format_int a = format_int b -> a = b.
Proof.
  unfold format_int. intros Heq.
  apply DecimalZ.to_int_inj.
  assert (Hparse : forall z : Z,
            NilZero.int_of_string (NilZero.string_of_int (Z.to_int z))
            = Some (Z.to_int z)).
  { intros z. apply NilZero.isi; destruct z; simpl; try discriminate.
    - intros [= H]. by apply DecimalPos.Unsigned.to_uint_nonnil in H.
    - intros [= H]. by apply DecimalPos.Unsigned.to_uint_nonnil in H. }
  apply (f_equal NilZero.int_of_string) in Heq.
  rewrite !Hparse in Heq. by injection Heq.
Qed.

Lemma append_inj_l (pre a b : string) : pre +:+ a = pre +:+ b -> a = b.
Proof.
  induction pre as [|c pre IH]; [done|].
  rewrite !append_cons. intros [= H]. by apply IH.
Qed.

(** X1.  The only good result comes from exit code 0, and a failed result is
    reported for nothing but an exit with a code other than 0 and 120:
    time-outs, signals, unknown terminations and the exec failure are
    never reported as failed. *)
Theorem calculate_result_verdicts (o : option status) :
  (good (calculate_result o) = true <-> o = Some (Exited 0))
  /\ (forall reason,
        calculate_result o = failed reason ->
        exists c, o = Some (Exited c) /\ c <> 0 /\ c <> exec_failure_code
                  /\ reason = "Exited with code " +:+ format_int c).
Proof.
  unfold calculate_result, exec_failure_code, EXIT_SUCCESS.
  destruct o as [[c|s core|]|]; simpl; try (split; [split|]; done).
  destruct (Z.eqb_spec c 0) as [->|Hz]; [by split|].
  destruct (Z.eqb_spec c 120) as [->|Hx]; simpl.
  - split; [split; [done|]|done]. by intros [= ?].
  - split; [split; [done|by intros [= ?]]|].
    intros reason [= <-]. by exists c.
Qed.

Lemma calculate_result_verdicts_witness :
  exists c, Some (Exited 7) = Some (Exited c) /\ c <> 0
            /\ c <> exec_failure_code
            /\ "Exited with code 7" = "Exited with code " +:+ format_int c.
Proof.
  destruct (calculate_result_verdicts (Some (Exited 7))) as [_ Hfailed].
  apply (Hfailed "Exited with code 7"). reflexivity.
Defined.

Lemma chars_inj (a b : string) : chars a = chars b -> a = b.
Proof.
  revert b. induction a as [|x a IH]; intros [|y b]; simpl; try done.
  intros [= -> H]. by rewrite (IH b H).
Qed.

Lemma append_inj_r (a b post : string) : a +:+ post = b +:+ post -> a = b.
Proof.
  intros H%(f_equal chars). rewrite !chars_append in H.
  by apply app_inv_tail, chars_inj in H.
Qed.

Lemma format_status_eq_inv (a b : status) :
  format_status a = format_status b -> a = b.
Proof.
  assert (Hnote : forall s t,
            format_int s +:+ core_dumped_note <> format_int t +:+ "").
  { intros s t Heq. rewrite append_empty_r in Heq.
    apply (format_int_no_paren t). rewrite <- Heq.
    rewrite chars_append. apply elem_of_app. right.
    by apply (bool_decide_unpack _). }
  destruct a as [c1|s1 core1|], b as [c2|s2 core2|];
    unfold format_status; simpl; try done.
  - intros H%(append_inj_l "Exited with code ").
    by apply format_int_inj in H as ->.
  - intros H%(append_inj_l "Received signal ").
    destruct core1, core2.
    + by apply append_inj_r, format_int_inj in H as ->.
    + by apply Hnote in H.
    + symmetry in H. by apply Hnote in H.
    + rewrite !append_empty_r in H. by apply format_int_inj in H as ->.
Qed.

(** X2.  Different terminations are reported with different reasons: two
    statuses that differ in the exit code, in the signal, in the
    core-dump flag or in their kind have different descriptions. *)
Theorem format_status_inj (a b : status) :
  a <> b -> format_status a <> format_status b.
Proof. intros Hne Heq. by apply Hne, format_status_eq_inv. Qed.

Lemma format_status_inj_witness :
  format_status (Signaled SIGINT false) <> format_status (Signaled SIGINT true).
Proof. apply format_status_inj. discriminate. Defined.

(** ** Interrupt monitor *)

(** X3.  [check_interrupt] only reads the flag: it returns exactly when the
    flag is empty, raises the recorded signal otherwise, and leaves the
    flag as it was, so that a later checkpoint raises the same
    interruption again. *)
Theorem check_interrupt_reads_only w :
  interrupted_signo (snd (check_interrupt w)) = interrupted_signo w
  /\ (fst (check_interrupt w) = Ret tt <-> interrupted_signo w = 0)
  /\ (interrupted_signo w <> 0 ->
      fst (check_interrupt w)
      = Throw (interrupted_error (interrupted_signo w))
      /\ fst (check_interrupt (snd (check_interrupt w)))
         = Throw (interrupted_error (interrupted_signo w))).
Proof.
  destruct (decide (interrupted_signo w = 0)) as [Hz|Hnz].
  - assert (Hrun : check_interrupt w
                   = (Ret tt, set_trace (trace w ++ [checking_log]) w)).
    { destruct w. unfold check_interrupt. mrun. simpl in Hz. by rewrite Hz. }
    rewrite Hrun. by repeat split.
  - rewrite (check_interrupt_pending w Hnz). simpl.
    split; [done|]. split; [by split|]. intros _. split; [done|].
    by rewrite check_interrupt_pending.
Qed.

Lemma check_interrupt_reads_only_witness :
  fst (check_interrupt (set_interrupted_signo SIGTERM fresh_process))
  = Throw (interrupted_error SIGTERM)
  /\ fst (check_interrupt
            (snd (check_interrupt
                    (set_interrupted_signo SIGTERM fresh_process))))
     = Throw (interrupted_error SIGTERM).
Proof.
  destruct (check_interrupt_reads_only
              (set_interrupted_signo SIGTERM fresh_process))
    as (_ & _ & Hpending).
  apply Hpending. vm_compute. discriminate.
Defined.

(** X4.  The handler records the last signal: after two signals have been
    handled, the next checkpoint raises the second one.  Its
    postconditions hold for every signal number but 0, for which the
    first one stops the process. *)
Theorem interrupt_handler_last_signal (a b : Z) w :
  (a <> 0 -> b <> 0 ->
   exists w',
     (interrupt_handler a;; interrupt_handler b;; check_interrupt) w
     = (Throw (interrupted_error b), w')
     /\ interrupted_signo w' = b
     /\ trace w'
        = trace w ++ [EvWrite STDERR_FILENO signal_caught_message;
                      EvWrite STDERR_FILENO signal_caught_message;
                      checking_log; pending_log])
  /\ fst (interrupt_handler 0 w)
     = Halt (Sanity "POST(interrupted_signo != 0)").
Proof.
  split; [|by destruct w].
  intros Ha Hb. unfold bind.
  rewrite (interrupt_handler_eq a w Ha), interrupt_handler_eq by done.
  rewrite check_interrupt_pending by done.
  eexists. split; [reflexivity|]. simpl. split; [done|].
  by rewrite <- !app_assoc.
Qed.

Lemma interrupt_handler_last_signal_witness :
  exists w',
    (interrupt_handler SIGINT;; interrupt_handler SIGTERM;;
     check_interrupt) fresh_process
    = (Throw (interrupted_error SIGTERM), w')
    /\ interrupted_signo w' = SIGTERM
    /\ trace w'
       = trace fresh_process
         ++ [EvWrite STDERR_FILENO signal_caught_message;
             EvWrite STDERR_FILENO signal_caught_message;
             checking_log; pending_log].
Proof.
  destruct (interrupt_handler_last_signal SIGINT SIGTERM fresh_process)
    as [Hlast _].
  apply Hlast; discriminate.
Defined.

(** ** Supervised executor: every outcome *)




(** [fork_and_wait] changes nothing but the flag and the trace, and never
    reaches its UNREACHABLE mark. *)
Lemma fork_and_wait_frame rf rw rr hook outfile errfile w :
  (exists flag evs,
     snd (fork_and_wait rf rw rr hook outfile errfile w)
     = set_trace evs (set_interrupted_signo flag w))
  /\ forall h, fst (fork_and_wait rf rw rr hook outfile errfile w) <> Halt h.
Proof.
  destruct w as [flag acts progs env mask here self group ds ads tr].
  unfold fork_and_wait, child_fork, child_wait_timeout, child_wait,
    sys_kill, check_interrupt.
  mcase; try (split; [by eexists _, _|done]).
  all: exfalso.
  all: match goal with
       | e : waitpid_errno |- _ => by destruct e
       | H : negb (flag_after ?a ?s ?f =? 0) = false |- _ =>
           apply negb_false_iff, Z.eqb_eq in H; revert H;
           apply flag_after_sticky; by apply flag_after_caught
       end.
Qed.

(** ** Reasoning with triples *)

Lemma triple_conseq {A} (P P' : world -> Prop) (m : M A) Q Q' E E' :
  triple P' m Q' E' ->
  (forall w, P w -> P' w) ->
  (forall a w, Q' a w -> Q a w) ->
  (forall e w, E' e w -> E e w) ->
  triple P m Q E.
Proof.
  intros Hm HP HQ HE w Hw. specialize (Hm w (HP w Hw)).
  destruct (m w) as [[a|e|h] w1]; auto.
Qed.

Lemma triple_disj {A} (P1 P2 : world -> Prop) (m : M A) Q E :
  triple P1 m Q E -> triple P2 m Q E ->
  triple (fun w => P1 w \/ P2 w) m Q E.
Proof. intros H1 H2 w [Hw|Hw]; [by apply H1 | by apply H2]. Qed.

Lemma triple_ret {A} (P : world -> Prop) (a : A) Q E :
  (forall w, P w -> Q a w) -> triple P (ret a) Q E.
Proof. intros H w Hw. by apply H. Qed.

Lemma triple_throw {A} (P : world -> Prop) e (Q : A -> world -> Prop) E :
  (forall w, P w -> E e w) -> triple P (throw e) Q E.
Proof. intros H w Hw. by apply H. Qed.

Lemma triple_get {A} (P : world -> Prop) (f : world -> A) Q E :
  (forall w, P w -> Q (f w) w) -> triple P (get f) Q E.
Proof. intros H w Hw. by apply H. Qed.

Lemma triple_modify (P : world -> Prop) (f : world -> world) Q E :
  (forall w, P w -> Q tt (f w)) -> triple P (modify f) Q E.
Proof. intros H w Hw. by apply H. Qed.

Lemma triple_bind {A B} (P : world -> Prop) (m : M A) (k : A -> M B)
    R Q E :
  triple P m R E -> (forall a, triple (R a) (k a) Q E) ->
  triple P (bind m k) Q E.
Proof.
  intros Hm Hk w Hw. specialize (Hm w Hw). unfold bind.
  destruct (m w) as [[a|e|h] w1]; [by apply Hk|done|done].
Qed.

Lemma triple_try_catch {A} (P : world -> Prop) (m : M A) handler Q E E' :
  triple P m Q E' ->
  (forall e,
     match handler e with
     | Some h => triple (E' e) h Q E
     | None => forall w, E' e w -> E e w
     end) ->
  triple P (try_catch m handler) Q E.
Proof.
  intros Hm Hh w Hw. specialize (Hm w Hw). unfold try_catch.
  destruct (m w) as [[a|e|h] w1]; [done| |done].
  specialize (Hh e). destruct (handler e) as [h|]; by apply Hh.
Qed.

Lemma triple_scope_exit {A} (P : world -> Prop) (body : M A) dtor
    Q Q' E E' :
  triple P body Q' E' ->
  (forall a, triple (Q' a) dtor (fun _ => Q a) (fun _ => Q a)) ->
  (forall e, triple (E' e) dtor (fun _ => E e) (fun _ => E e)) ->
  triple P (scope_exit body dtor) Q E.
Proof.
  intros Hb Hq He w Hw. specialize (Hb w Hw). unfold scope_exit.
  destruct (body w) as [[a|e|h] w1]; [| |done].
  - specialize (Hq a w1 Hb). by destruct (dtor w1) as [[[]|e'|h'] w2].
  - specialize (He e w1 Hb). by destruct (dtor w1) as [[[]|e'|h'] w2].
Qed.

(** ** Code that leaves the signal programming alone *)

Section Steady.
Variable inv : world -> Prop.
Hypothesis inv_stable : stable inv.

Lemma steady_ret {A} (a : A) : steady inv (ret a).
Proof. by apply triple_ret. Qed.

Lemma steady_throw {A} e : steady inv (@throw A e).
Proof. by apply triple_throw. Qed.

Lemma steady_get {A} (f : world -> A) : steady inv (get f).
Proof. by apply triple_get. Qed.

Lemma steady_bind {A B} (m : M A) (k : A -> M B) :
  steady inv m -> (forall a, steady inv (k a)) -> steady inv (bind m k).
Proof. intros Hm Hk. by apply (triple_bind _ _ _ (fun _ => inv)). Qed.

Lemma steady_try_catch {A} (m : M A) handler :
  steady inv m -> (forall e h, handler e = Some h -> steady inv h) ->
  steady inv (try_catch m handler).
Proof.
  intros Hm Hh. apply (triple_try_catch _ _ _ _ _ (fun _ => inv)); [done|].
  intros e. destruct (handler e) as [h|] eqn:He; [by apply (Hh e)|done].
Qed.

Lemma steady_scope_exit {A} (body : M A) dtor :
  steady inv body -> steady inv dtor -> steady inv (scope_exit body dtor).
Proof.
  intros Hb Hd.
  by apply (triple_scope_exit _ _ _ _ (fun _ => inv) _ (fun _ => inv)).
Qed.

Lemma steady_emit e : steady inv (emit e).
Proof. apply triple_modify. intros w. apply inv_stable. Qed.

Lemma steady_deliver_all sigs : steady inv (deliver_all sigs).
Proof.
  intros w Hw. rewrite deliver_all_eq.
  by apply inv_stable, inv_stable.
Qed.

Ltac steady_walk :=
  repeat first
    [ apply steady_bind | apply steady_emit | apply steady_get
    | apply steady_ret | apply steady_throw | apply steady_deliver_all
    | apply steady_try_catch | apply steady_scope_exit
    | apply triple_modify; intros ?; apply inv_stable
    | progress intros | progress simplify_eq | case_match ].

Lemma steady_check_interrupt : steady inv check_interrupt.
Proof. unfold check_interrupt, LD, LI. steady_walk. Qed.

Lemma steady_fs_mkdir r dir mode : steady inv (fs_mkdir r dir mode).
Proof. unfold fs_mkdir. steady_walk. Qed.

Lemma steady_create_work_directory r : steady inv (create_work_directory r).
Proof. unfold create_work_directory, getenv, fs_mkdtemp. steady_walk. Qed.

Lemma steady_cleanup r dir : steady inv (auto_directory_cleanup r dir).
Proof. unfold auto_directory_cleanup. steady_walk. Qed.

Lemma steady_auto_directory_dtor r dir : steady inv (auto_directory_dtor r dir).
Proof.
  unfold auto_directory_dtor, auto_directory_cleanup, LW. steady_walk.
Qed.

Lemma steady_fork_and_wait rf rw rr hook outfile errfile :
  steady inv (fork_and_wait rf rw rr hook outfile errfile).
Proof.
  intros w Hw.
  destruct (fork_and_wait_frame rf rw rr hook outfile errfile w)
    as [(flag & evs & Hsnd) Hhalt].
  destruct (fork_and_wait rf rw rr hook outfile errfile w) as [[a|e|h] w1];
    simpl in *; [| |by destruct (Hhalt h)];
    subst w1; by apply inv_stable, inv_stable.
Qed.

Lemma steady_workdir sc tc dir :
  steady inv (run_test_case_safe_workdir sc tc dir).
Proof.
  unfold run_test_case_safe_workdir, LI.
  repeat first
    [ apply steady_fork_and_wait | apply steady_check_interrupt
    | apply steady_fs_mkdir | apply steady_bind | apply steady_emit
    | apply steady_ret | intros ? ].
Qed.

End Steady.

(** ** The signal programming across a run *)

Lemma programmed_stable actions0 objs0 hup int term :
  stable (programmed actions0 objs0 hup int term).
Proof. repeat split; intros v w H s; apply (H s). Qed.

Lemma stable_or (P1 P2 : world -> Prop) :
  stable P1 -> stable P2 -> stable (fun w => P1 w \/ P2 w).
Proof.
  intros (F1 & T1 & D1 & A1) (F2 & T2 & D2 & A2).
  repeat split; intros v w [H|H]; auto.
Qed.

Lemma programmer_ctor_eq signo handler w :
  programmer_ctor signo handler w
  = (Ret tt,
     set_sigactions (<[signo := handler]> (sigactions w))
       (set_programmers
          (<[signo := sigactions w !! signo]> (programmers w))
          (logged (EvProgram signo) w))).
Proof. by destruct w. Qed.

Lemma programmer_unprogram_eq signo old w :
  programmers w !! signo = Some old ->
  programmer_unprogram signo w
  = (Ret tt,
     set_sigactions
       (match old with
        | Some h => <[signo := h]> (sigactions w)
        | None => delete signo (sigactions w)
        end)
       (set_programmers (delete signo (programmers w))
          (logged (EvUnprogram signo) w))).
Proof.
  destruct w. unfold programmer_unprogram, bind, get. simpl. by intros ->.
Qed.

Section Phases.
Variable actions0 : gmap Z sighandler.
Variable objs0 : gmap Z (option sighandler).
Variables a b c a' b' c' : phase.
Variable s : Z.
Hypothesis elsewhere :
  forall s', s' <> s -> phase_of a' b' c' s' = phase_of a b c s'.

Lemma programmer_ctor_phase E :
  phase_of a b c s = Fresh -> phase_of a' b' c' s = Armed ->
  triple (programmed actions0 objs0 a b c)
    (programmer_ctor s InterruptHandler)
    (fun _ => programmed actions0 objs0 a' b' c') E.
Proof.
  intros Hold Hnew w Hw. rewrite programmer_ctor_eq. intros s'.
  destruct (decide (s' = s)) as [->|Hne].
  - rewrite Hnew. simpl. rewrite !lookup_insert_eq.
    specialize (Hw s). rewrite Hold in Hw. destruct Hw as [-> _]. done.
  - rewrite (elsewhere s' Hne). simpl.
    rewrite !lookup_insert_ne by done. apply Hw.
Qed.

Lemma programmer_unprogram_phase E :
  phase_of a b c s = Armed -> phase_of a' b' c' s = Restored ->
  triple (programmed actions0 objs0 a b c)
    (programmer_unprogram s)
    (fun _ => programmed actions0 objs0 a' b' c') E.
Proof.
  intros Hold Hnew w Hw.
  pose proof (Hw s) as Hs. rewrite Hold in Hs. destruct Hs as [Hact Hobj].
  rewrite (programmer_unprogram_eq _ _ _ Hobj). intros s'.
  destruct (decide (s' = s)) as [->|Hne].
  - rewrite Hnew. simpl. rewrite lookup_delete_eq. split; [|done].
    destruct (actions0 !! s) as [h|];
      [apply lookup_insert_eq | apply lookup_delete_eq].
  - rewrite (elsewhere s' Hne). simpl.
    rewrite lookup_delete_ne by done.
    assert (Hsame : (match actions0 !! s with
                     | Some h => <[s := h]> (sigactions w)
                     | None => delete s (sigactions w)
                     end) !! s' = sigactions w !! s').
    { destruct (actions0 !! s);
        [by rewrite lookup_insert_ne | by rewrite lookup_delete_ne]. }
    rewrite Hsame. apply Hw.
Qed.

Lemma programmer_dtor_armed :
  phase_of a b c s = Armed -> phase_of a' b' c' s = Restored ->
  triple (programmed actions0 objs0 a b c)
    (programmer_dtor s)
    (fun _ => programmed actions0 objs0 a' b' c')
    (fun _ => programmed actions0 objs0 a' b' c').
Proof.
  intros Hold Hnew w Hw.
  pose proof (Hw s) as Hs. rewrite Hold in Hs. destruct Hs as [_ Hobj].
  assert (Hrun : programmer_dtor s w = programmer_unprogram s w).
  { unfold programmer_dtor, bind, get. rewrite Hobj.
    by rewrite bool_decide_true. }
  rewrite Hrun.
  by apply (programmer_unprogram_phase
              (fun _ => programmed actions0 objs0 a' b' c')).
Qed.

Lemma programmer_dtor_restored :
  phase_of a b c s = Restored ->
  steady (programmed actions0 objs0 a b c) (programmer_dtor s).
Proof.
  intros Hold w Hw.
  pose proof (Hw s) as Hs. rewrite Hold in Hs. destruct Hs as [_ Hobj].
  by rewrite (programmer_dtor_absent _ _ Hobj).
Qed.

End Phases.

Ltac phase_side :=
  first
    [ reflexivity
    | let s' := fresh "s" in
      let Hne := fresh "Hne" in
      intros s' Hne; unfold phase_of;
      destruct (Z.eqb_spec s' SIGHUP), (Z.eqb_spec s' SIGINT),
        (Z.eqb_spec s' SIGTERM); done ].

Lemma unprogram_all_phase actions0 objs0 E :
  triple (programmed actions0 objs0 Armed Armed Armed) unprogram_all
    (fun _ => programmed actions0 objs0 Restored Restored Restored) E.
Proof.
  unfold unprogram_all.
  apply (triple_bind _ _ _
           (fun _ => programmed actions0 objs0 Restored Armed Armed));
    [apply programmer_unprogram_phase; phase_side|intros _].
  apply (triple_bind _ _ _
           (fun _ => programmed actions0 objs0 Restored Restored Armed));
    [apply programmer_unprogram_phase; phase_side|intros _].
  apply programmer_unprogram_phase; phase_side.
Qed.

Section Restoring.
Variable actions0 : gmap Z sighandler.
Variable objs0 : gmap Z (option sighandler).
Variable sc : scenario.
Variable tc : test_case.

Lemma run_in_workdir_phase dir :
  triple (programmed actions0 objs0 Armed Armed Armed)
    (run_in_workdir sc tc dir)
    (fun _ => programmed actions0 objs0 Armed Armed Armed)
    (fun _ w => programmed actions0 objs0 Armed Armed Armed w
                \/ programmed actions0 objs0 Restored Restored Restored w).
Proof.
  pose proof (programmed_stable actions0 objs0 Armed Armed Armed) as Hst.
  unfold run_in_workdir.
  apply (triple_try_catch _ _ _ _ _
           (fun _ => programmed actions0 objs0 Armed Armed Armed)).
  - apply steady_bind; [by apply steady_check_interrupt|intros _].
    apply steady_bind; [by apply steady_workdir|intros result].
    apply steady_try_catch.
    + apply steady_bind; [by apply steady_cleanup|intros _].
      apply steady_ret.
    + intros e h He. destruct e; simplify_eq.
      destruct (good result); [apply steady_ret|].
      apply steady_bind; [by apply steady_emit|intros _]. apply steady_ret.
  - intros e. destruct e; try (intros w Hw; by left).
    apply (triple_bind _ _ _
             (fun _ => programmed actions0 objs0 Armed Armed Armed)).
    { apply (triple_conseq _ _ _ _ _ _ _
               (steady_cleanup _ Hst _ _)); auto. }
    intros _.
    apply (triple_bind _ _ _
             (fun _ => programmed actions0 objs0 Restored Restored Restored));
      [apply unprogram_all_phase|intros _].
    apply triple_throw. intros w Hw. by right.
Qed.

Lemma run_and_unprogram_phase dir :
  triple (programmed actions0 objs0 Armed Armed Armed)
    (run_and_unprogram sc tc dir)
    (fun _ => programmed actions0 objs0 Restored Restored Restored)
    (fun _ w => programmed actions0 objs0 Armed Armed Armed w
                \/ programmed actions0 objs0 Restored Restored Restored w).
Proof.
  unfold run_and_unprogram.
  apply (triple_bind _ _ _
           (fun _ => programmed actions0 objs0 Armed Armed Armed));
    [apply run_in_workdir_phase|intros result].
  apply (triple_bind _ _ _
           (fun _ => programmed actions0 objs0 Restored Restored Restored));
    [apply unprogram_all_phase|intros _].
  by apply triple_ret.
Qed.

Lemma run_test_case_safe_phase :
  triple (programmed actions0 objs0 Fresh Fresh Fresh)
    (run_test_case_safe sc tc)
    (fun _ => programmed actions0 objs0 Restored Restored Restored)
    (fun _ => programmed actions0 objs0 Restored Restored Restored).
Proof.
  pose proof (programmed_stable actions0 objs0 Armed Armed Armed) as Harmed.
  pose proof (programmed_stable actions0 objs0 Restored Restored Restored)
    as Hrestored.
  pose proof (stable_or _ _ Harmed Hrestored) as Heither.
  unfold run_test_case_safe, with_programmer.
  apply (triple_bind _ _ _
           (fun _ => programmed actions0 objs0 Armed Fresh Fresh));
    [apply programmer_ctor_phase; phase_side|intros _].
  apply (triple_scope_exit _ _ _ _
           (fun _ => programmed actions0 objs0 Restored Restored Restored) _
           (fun _ w =>
              programmed actions0 objs0 Armed Restored Restored w
              \/ programmed actions0 objs0 Restored Restored Restored w)).
  2: { intros _. apply programmer_dtor_restored. reflexivity. }
  2: { intros _. apply triple_disj;
         [apply programmer_dtor_armed; phase_side
         |apply programmer_dtor_restored; reflexivity]. }
  apply (triple_bind _ _ _
           (fun _ => programmed actions0 objs0 Armed Armed Fresh));
    [apply programmer_ctor_phase; phase_side|intros _].
  apply (triple_scope_exit _ _ _ _
           (fun _ => programmed actions0 objs0 Restored Restored Restored) _
           (fun _ w =>
              programmed actions0 objs0 Armed Armed Restored w
              \/ programmed actions0 objs0 Restored Restored Restored w)).
  2: { intros _. apply programmer_dtor_restored. reflexivity. }
  2: { intros _. apply triple_disj.
       - apply (triple_conseq _ _ _ _ _ _ _
                  (programmer_dtor_armed actions0 objs0
                     Armed Armed Restored Armed Restored Restored SIGINT
                     ltac:(phase_side) eq_refl eq_refl)); auto.
       - apply (triple_conseq _ _ _ _ _ _ _
                  (programmer_dtor_restored actions0 objs0
                     Restored Restored Restored SIGINT eq_refl)); auto. }
  apply (triple_bind _ _ _
           (fun _ => programmed actions0 objs0 Armed Armed Armed));
    [apply programmer_ctor_phase; phase_side|intros _].
  apply (triple_scope_exit _ _ _ _
           (fun _ => programmed actions0 objs0 Restored Restored Restored) _
           (fun _ w =>
              programmed actions0 objs0 Armed Armed Armed w
              \/ programmed actions0 objs0 Restored Restored Restored w)).
  2: { intros _. apply programmer_dtor_restored. reflexivity. }
  2: { intros _. apply triple_disj.
       - apply (triple_conseq _ _ _ _ _ _ _
                  (programmer_dtor_armed actions0 objs0
                     Armed Armed Armed Armed Armed Restored SIGTERM
                     ltac:(phase_side) eq_refl eq_refl)); auto.
       - apply (triple_conseq _ _ _ _ _ _ _
                  (programmer_dtor_restored actions0 objs0
                     Restored Restored Restored SIGTERM eq_refl)); auto. }
  apply (triple_bind _ _ _
           (fun _ => programmed actions0 objs0 Armed Armed Armed)).
  { apply (triple_conseq _ _ _ _ _ _ _
             (steady_create_work_directory _ Harmed _)); auto. }
  intros dir. unfold with_auto_directory, auto_directory_ctor.
  apply (triple_bind _ _ _
           (fun _ => programmed actions0 objs0 Armed Armed Armed)).
  { apply triple_modify. intros w. apply Harmed. }
  intros _.
  apply (triple_scope_exit _ _ _ _
           (fun _ => programmed actions0 objs0 Restored Restored Restored) _
           (fun _ w =>
              programmed actions0 objs0 Armed Armed Armed w
              \/ programmed actions0 objs0 Restored Restored Restored w)).
  2: { intros _. by apply steady_auto_directory_dtor. }
  2: { intros _. by apply steady_auto_directory_dtor. }
  apply (triple_bind _ _ _
           (fun _ => programmed actions0 objs0 Restored Restored Restored));
    [apply run_and_unprogram_phase|intros result].
  apply (triple_bind _ _ _
           (fun _ => programmed actions0 objs0 Restored Restored Restored)).
  { apply (triple_conseq _ _ _ _ _ _ _
             (steady_check_interrupt _ Hrestored)); auto. }
  intros _. by apply triple_ret.
Qed.

End Restoring.

Lemma run_test_case_safe_end sc tc w :
  programmed (sigactions w) (programmers w) Restored Restored Restored
    (snd (run_test_case_safe sc tc w))
  /\ forall h, fst (run_test_case_safe sc tc w) <> Halt h.
Proof.
  assert (Hfresh : programmed (sigactions w) (programmers w)
                     Fresh Fresh Fresh w).
  { intros s. unfold phase_of. by repeat case_match. }
  pose proof (run_test_case_safe_phase _ _ sc tc w Hfresh) as Hrun.
  by destruct (run_test_case_safe sc tc w) as [[r|e|h] w1].
Qed.

Lemma restored_sigactions actions0 objs0 w :
  programmed actions0 objs0 Restored Restored Restored w ->
  sigactions w = actions0.
Proof.
  intros Hend. apply map_eq. intros s. specialize (Hend s).
  unfold phase_of in Hend.
  by destruct (s =? SIGHUP), (s =? SIGINT), (s =? SIGTERM); destruct Hend.
Qed.


(** ** Running inside the work directory *)

Lemma fs_mkdir_ret r dir mode w w' :
  fs_mkdir r dir mode w = (Ret tt, w') -> dir ∈ dirs w'.
Proof.
  destruct w. unfold fs_mkdir. mstep.
  destruct (answer r); [done|]. intros [= <-]. simpl.
  apply elem_of_union. left. by apply elem_of_singleton.
Qed.

(** X6.  [run_test_case_safe_workdir] forks no child when it cannot make the
    run directory or when a signal has been recorded by the time the run
    directory is made: it stops after the mkdir, or after the checkpoint
    that follows it.  When it returns, the result is the classification of
    the wait outcome, the flag is empty and the run directory exists. *)
Theorem run_test_case_safe_workdir_gates sc tc dir w :
  let rundir := path_join dir "run" in
  let w1 := delivered (signals (sc_mkdir sc))
              (logged (EvMkdir rundir mode_0755) w) in
  (forall what,
     answer (sc_mkdir sc) = Some what ->
     run_test_case_safe_workdir sc tc dir w = (Throw (fs_error what), w1))
  /\ (answer (sc_mkdir sc) = None -> interrupted_signo w1 <> 0 ->
      run_test_case_safe_workdir sc tc dir w
      = (Throw (interrupted_error (interrupted_signo w1)),
         logged pending_log
           (logged checking_log (set_dirs ({[rundir]} ∪ dirs w1) w1))))
  /\ (forall r w',
        run_test_case_safe_workdir sc tc dir w = (Ret r, w') ->
        r = calculate_result (wait_outcome (sc_wait sc))
        /\ interrupted_signo w' = 0 /\ rundir ∈ dirs w').
Proof.
  intros rundir w1. split; [|split].
  - intros what Hwhat. subst w1 rundir.
    destruct w as [flag acts progs env mask here self group ds ads tr].
    unfold logged, run_test_case_safe_workdir, fs_mkdir. mstep.
    rewrite Hwhat. reflexivity.
  - intros Hnone Hflag. subst w1 rundir.
    destruct w as [flag acts progs env mask here self group ds ads tr].
    unfold logged, run_test_case_safe_workdir, fs_mkdir, check_interrupt
      in *. mstep. rewrite Hnone. mstep. mrun_in Hflag.
    destruct (Z.eqb_spec (flag_after acts (signals (sc_mkdir sc)) flag) 0)
      as [Hz|_]; [done|].
    reflexivity.
  - intros r w' Hrun. split; [by eapply run_test_case_safe_workdir_ret|].
    revert Hrun. unfold run_test_case_safe_workdir.
    intros ([] & wa & Hmk & H)%bind_ret_inv.
    apply bind_ret_inv in H as ([] & wb & Hc1 & H).
    apply bind_ret_inv in H as ([] & wc & Hli & H).
    apply bind_ret_inv in H as (st & wd & Hfork & H).
    apply bind_ret_inv in H as ([] & we & Hc2 & H).
    injection H as _ <-.
    apply check_interrupt_ret in Hc2 as [Hzero ->].
    split; [done|]. simpl.
    destruct (fork_and_wait_frame (sc_fork sc) (sc_wait sc) (sc_reap sc)
                (execute_test_case (sc_child sc) tc (path_join dir "run"))
                (path_join dir "stdout.txt") (path_join dir "stderr.txt") wc)
      as [(flag & evs & Hsnd) _].
    rewrite Hfork in Hsnd. simpl in Hsnd. subst wd. simpl.
    injection Hli as <-. simpl.
    apply check_interrupt_ret in Hc1 as [_ ->]. simpl.
    by apply fs_mkdir_ret in Hmk.
Qed.

Lemma run_test_case_safe_workdir_gates_witness :
  fst (run_test_case_safe_workdir run_mkdir_fails sample_test
         "/tmp/kyua.abcdef" fresh_process)
  = Throw (fs_error "No space left on device").
Proof.
  destruct (run_test_case_safe_workdir_gates run_mkdir_fails sample_test
              "/tmp/kyua.abcdef" fresh_process) as [Hfails _].
  rewrite (Hfails "No space left on device"); reflexivity.
Defined.

(** ** The public entry point, end to end *)

Lemma do_run_eq sc tc w :
  do_run sc tc w
  = match run_test_case_safe sc tc
            (logged (EvLog Info ("Processing test case '" +:+
                                 identifier tc +:+ "'")) w) with
    | (Ret r, w1) => (Ret r, w1)
    | (Throw e, w1) =>
        if is_interrupted e then (Throw e, w1)
        else (Ret (broken
                     ("The test caused an error in the runtime system: "
                      +:+ exn_what e)), w1)
    | (Halt h, w1) => (Halt h, w1)
    end.
Proof.
  unfold do_run, logged, LI, bind, emit, modify, try_catch.
  destruct (run_test_case_safe sc tc _) as [[r|e|h] w1]; try reflexivity.
  by destruct e.
Qed.

Lemma run_test_case_safe_raises sc tc w signo :
  fst (run_test_case_safe sc tc w) = Throw (interrupted_error signo) ->
  signo <> 0.
Proof.
  intros Hrun.
  destruct (inv_respects_run_test_case_safe
              (fun _ => True)
              (fun e => forall s, e = interrupted_error s -> s <> 0)
              (fun _ => True)) with (sc := sc) (tc := tc) (w := w)
    as [_ Hthrown]; try done.
  - by intros w1 _ Hflag s [= <-].
  - by intros [] Hint s.
  - by apply (Hthrown _ Hrun).
Qed.



Lemma create_work_directory_eq r w cands s :
  answer r = MkdtempNames cands ->
  List.find (free_suffix (work_directory_base w +:+ "/kyua.") (dirs w)) cands
  = Some s ->
  create_work_directory r w
  = (Ret ((work_directory_base w +:+ "/kyua.") +:+ s),
     set_dirs ({[(work_directory_base w +:+ "/kyua.") +:+ s]} ∪ dirs w)
       (delivered (signals r)
          (logged (EvMkdtemp (work_directory_base w +:+ "/kyua.XXXXXX")) w))).
Proof.
  intros Hans Hfind.
  assert (Hrun : create_work_directory r w
                 = fs_mkdtemp r (work_directory_base w +:+ "/kyua.XXXXXX") w).
  { unfold create_work_directory, getenv, work_directory_base.
    unfold bind, get. by destruct (environ w !! "TMPDIR"). }
  assert (Hstem : strip_template (work_directory_base w +:+ "/kyua.XXXXXX")
                  = Some (work_directory_base w +:+ "/kyua.")).
  { rewrite <- strip_template_stem. by rewrite append_assoc. }
  rewrite Hrun. revert Hfind Hstem. generalize (work_directory_base w).
  intros base Hfind Hstem.
  destruct w as [flag acts progs env mask here self group ds ads tr].
  unfold fs_mkdtemp, logged. mrun. rewrite deliver_all_eq, Hstem, Hans. mrun.
  mrun_in Hfind. rewrite Hfind. reflexivity.
Qed.

Ltac qstep :=
  repeat (mstep;
          repeat (progress change (flag_after _ [] 0) with 0);
          repeat (progress change (negb (0 =? 0)) with false);
          repeat (progress change (handler_writes _ []) with (@nil event))).

Lemma prefix_append (a b : string) : String.prefix a (a +:+ b) = true.
Proof.
  induction a as [|c a IH]; [by destruct b|].
  rewrite append_cons. cbn [String.prefix]. by destruct (ascii_dec c c).
Qed.

Lemma under_refl dir : under dir dir = true.
Proof. unfold under. by rewrite String.eqb_refl. Qed.

Lemma under_child dir leaf : under dir (path_join dir leaf) = true.
Proof.
  unfold under, path_join. rewrite <- append_assoc, prefix_append.
  apply orb_true_r.
Qed.

(** X9.  A run that nothing disturbs: no signal arrives, the flag is empty,
    and the environment grants every request.  [do_run] then returns the
    classification of the wait outcome, and its effects are, in this
    order: the three handlers programmed, the work directory made, the
    run directory made in it, the child forked with its output sent to
    stdout.txt and stderr.txt of the work directory, the timed wait, the
    work directory removed, the three handlers un-programmed; a
    checkpoint precedes the mkdir, the fork, the removal and the
    return. *)
Theorem do_run_undisturbed sc tc w cands s child :
  quiet sc -> interrupted_signo w = 0 ->
  answer (sc_mkdtemp sc) = MkdtempNames cands ->
  List.find (free_suffix (work_directory_base w +:+ "/kyua.") (dirs w)) cands
  = Some s ->
  answer (sc_mkdir sc) = None ->
  answer (sc_fork sc) = ForkPid child ->
  (forall what e, wait_result (sc_wait sc) <> WaitFails what e) ->
  answer (sc_cleanup sc) = None ->
  let dir := (work_directory_base w +:+ "/kyua.") +:+ s in
  exists w',
    do_run sc tc w
    = (Ret (calculate_result (wait_outcome (sc_wait sc))), w')
    /\ trace w'
       = trace w ++
         [EvLog Info ("Processing test case '" +:+ identifier tc +:+ "'");
          EvProgram SIGHUP; EvProgram SIGINT; EvProgram SIGTERM;
          EvMkdtemp (work_directory_base w +:+ "/kyua.XXXXXX");
          checking_log;
          EvMkdir (path_join dir "run") mode_0755;
          checking_log;
          EvLog Info ("Running test case '" +:+ identifier tc +:+ "'");
          EvFork child (path_join dir "stdout.txt")
            (path_join dir "stderr.txt");
          EvWait child (Some (60, 0));
          checking_log;
          EvCleanup dir;
          EvUnprogram SIGHUP; EvUnprogram SIGINT; EvUnprogram SIGTERM;
          checking_log]
    /\ interrupted_signo w' = 0
    /\ dirs w' = filter (fun d => under dir d = false) (dirs w).
Proof.
  intros (Hq1 & Hq2 & Hq3 & Hq4 & Hq5 & Hq6 & Hq7) Hflag Hmk Hfind Hmd Hfork
    Hwait Hclean dir.
  pose proof (create_work_directory_eq (sc_mkdtemp sc)) as Hcreate.
  subst dir.
  destruct w as [flag acts progs env mask here self group ds ads tr].
  simpl in Hflag. subst flag.
  set (base := work_directory_base _) in *.
  eexists. split.
  { rewrite do_run_eq.
    unfold run_test_case_safe, with_programmer, programmer_ctor, logged.
    mstep. rewrite (Hcreate _ cands s Hmk); [|exact Hfind].
    change (work_directory_base _) with base.
    unfold with_auto_directory, auto_directory_ctor, run_and_unprogram,
      run_in_workdir, run_test_case_safe_workdir, fs_mkdir, fork_and_wait,
      child_fork, child_wait_timeout, check_interrupt, logged.
    rewrite Hq1, Hq2, Hq3, Hq4, Hq5, Hmd, Hfork.
    qstep. change (existsb _ []) with false. unfold wait_outcome.
    destruct (wait_result (sc_wait sc)) as [st| |what e] eqn:Hw;
      [| |by destruct (Hwait what e)].
    all: unfold auto_directory_cleanup, unprogram_all, programmer_unprogram,
           programmer_dtor, auto_directory_dtor, auto_directory_cleanup.
    all: rewrite ?Hq6, ?Hq7, ?Hclean.
    all: qstep.
    all: rewrite bool_decide_true
           by (apply elem_of_union; left; by apply elem_of_singleton).
    all: repeat (qstep;
                 progress (rewrite ?lookup_insert_eq, ?lookup_delete_eq;
                           rewrite ?lookup_insert_ne, ?lookup_delete_ne
                             by done)).
    all: qstep.
    all: rewrite bool_decide_false by apply not_elem_of_removed.
    all: qstep.
    all: repeat (rewrite ?lookup_delete_eq;
                 rewrite ?lookup_delete_ne by done;
                 rewrite ?lookup_delete_eq;
                 rewrite bool_decide_false by (by intros [? ?]);
                 qstep).
    all: reflexivity. }
  mrun. split; [|split; [reflexivity|]].
  - rewrite !app_nil_r, <- !app_assoc. reflexivity.
  - apply set_eq. intros d. rewrite !elem_of_filter, !elem_of_union.
    rewrite !elem_of_singleton. split; [|tauto].
    intros [Hout [->|[->|Hin]]]; [| |done].
    + by rewrite under_child in Hout.
    + by rewrite under_refl in Hout.
Qed.

Lemma do_run_undisturbed_witness :
  exists w',
    do_run (run_exits 0) sample_test fresh_process = (Ret passed, w')
    /\ interrupted_signo w' = 0.
Proof.
  destruct (do_run_undisturbed (run_exits 0) sample_test fresh_process
              ["abcdef"] "abcdef" 101)
    as (w' & Hrun & _ & Hflag & _).
  - by repeat split.
  - reflexivity.
  - reflexivity.
  - vm_compute. reflexivity.
  - reflexivity.
  - reflexivity.
  - intros what e. discriminate.
  - reflexivity.
  - exists w'. split; [exact Hrun | exact Hflag].
Defined.

(** ** The child's body: the exec *)

Lemma is_absolute_join dir leaf :
  is_absolute dir = true -> is_absolute (path_join dir leaf) = true.
Proof.
  unfold is_absolute, path_join. destruct dir as [|c dir]; [done|].
  rewrite append_cons. cbn [String.prefix].
  destruct (ascii_dec "/" c); [|done].
  intros _. by destruct (dir +:+ "/" +:+ leaf).
Qed.

(** X10.  When the system accepts the exec, the child's body replaces the
    process image with the test program, run without arguments, once the
    isolation is done.  A relative program path has been resolved against
    the directory the child was in before the isolation entered the work
    directory, and the path handed to exec is absolute whenever that
    directory is.  A child that is not the leader of its process group
    stops at the first line of the isolation, before any effect. *)
Theorem execute_test_case_execs ce tc dir w :
  (forall w1,
     exec_refusal ce = None ->
     isolate_process ce dir w = (Ret tt, w1) ->
     execute_test_case ce tc dir w
     = (Halt (Exec (abs_test_program tc w) []),
        logged (EvExecve (abs_test_program tc w) []) w1))
  /\ (is_absolute (cwd w) = true ->
      is_absolute (abs_test_program tc w) = true)
  /\ (pgrp w <> pid w ->
      execute_test_case ce tc dir w
      = (Halt (Sanity "INV(::getpgrp() == ::getpid())"), w)).
Proof.
  assert (Hsafe : safe_run ce tc dir w
    = (isolate_process ce dir;;
       try_catch
         (process_exec (exec_refusal ce) (abs_test_program tc w) [])
         (fun e =>
            match e with
            | process_system_error what _ =>
                Some (cerr ("Failed to execute test program: " +:+ what
                            +:+ nl);;
                      stop (Exit exec_failure_code))
            | _ => None
            end)) w).
  { unfold safe_run, abs_test_program, to_absolute, fs_current_path.
    destruct (is_absolute _); reflexivity. }
  split; [|split].
  - intros w1 Hexec Hiso.
    unfold execute_test_case, execute_test_case_call.
    unfold bind at 1. unfold try_catch at 1. rewrite Hsafe.
    unfold bind at 1. rewrite Hiso, Hexec. reflexivity.
  - intros Habs. unfold abs_test_program.
    destruct (is_absolute (test_program_absolute_path tc)) eqn:Hprog;
      [done|by apply is_absolute_join].
  - intros Hne.
    unfold execute_test_case, execute_test_case_call.
    unfold bind at 1. unfold try_catch at 1. rewrite Hsafe.
    destruct w as [flag acts progs env mask here self group ds ads tr].
    simpl in Hne. unfold isolate_process. mrun.
    by destruct (Z.eqb_spec group self).
Qed.

Lemma execute_test_case_execs_witness :
  fst (execute_test_case plain_child sample_test "/tmp/kyua.abcdef/run"
         fresh_process)
  = Halt (Exec "/bin/true" []).
Proof.
  destruct (execute_test_case_execs plain_child sample_test
              "/tmp/kyua.abcdef/run" fresh_process) as [Hexec _].
  rewrite (Hexec (snd (isolate_process plain_child "/tmp/kyua.abcdef/run"
                         fresh_process)));
    [reflexivity | reflexivity | vm_compute; reflexivity].
Defined.

(** ** A run entered with a pending interruption *)

(** X11.  When a signal is already recorded as the [try] statement of
    [run_test_case_safe] is entered and the work directory can be
    removed, the statement makes no run directory and forks no child: the
    first checkpoint raises, the handler of the interruption removes the
    work directory, un-programs the three signals and raises the
    interruption again.  The exception names the signal that was pending
    at the checkpoint, also when another signal arrives during the
    removal and replaces it in the flag. *)
Theorem run_in_workdir_pending sc tc dir w :
  interrupted_signo w <> 0 ->
  dir ∈ auto_dirs w ->
  is_Some (programmers w !! SIGHUP) ->
  is_Some (programmers w !! SIGINT) ->
  is_Some (programmers w !! SIGTERM) ->
  answer (sc_cleanup sc) = None ->
  exists w',
    run_in_workdir sc tc dir w
    = (Throw (interrupted_error (interrupted_signo w)), w')
    /\ trace w'
       = trace w ++ [checking_log; pending_log; EvCleanup dir]
         ++ handler_writes (sigactions w) (signals (sc_cleanup sc))
         ++ [EvUnprogram SIGHUP; EvUnprogram SIGINT; EvUnprogram SIGTERM]
    /\ interrupted_signo w'
       = flag_after (sigactions w) (signals (sc_cleanup sc))
           (interrupted_signo w)
    /\ (dir ∉ auto_dirs w')
    /\ dirs w' = filter (fun d => under dir d = false) (dirs w).
Proof.
  destruct w as [flag acts progs env mask here self group ds ads tr].
  cbn [interrupted_signo auto_dirs programmers trace sigactions dirs].
  intros Hflag Hin [o1 H1] [o2 H2] [o3 H3] Hclean.
  eexists. split.
  { unfold run_in_workdir, check_interrupt, auto_directory_cleanup,
      unprogram_all, programmer_unprogram.
    mstep. destruct (Z.eqb_spec flag 0) as [|_]; [done|].
    cbn [negb]. mstep. rewrite bool_decide_true by done.
    mstep. rewrite Hclean. mstep. rewrite H1. mstep.
    rewrite lookup_delete_ne, H2 by done. mstep.
    rewrite !lookup_delete_ne, H3 by done. mstep.
    reflexivity. }
  mrun. split; [by rewrite <- !app_assoc|]. split; [done|].
  split; [apply not_elem_of_removed|done].
Qed.

Lemma run_in_workdir_pending_witness :
  fst (run_in_workdir run_signaled_late sample_test "/tmp/kyua.abcdef"
         (set_interrupted_signo SIGINT
            (set_auto_dirs {["/tmp/kyua.abcdef"]} programmed_process)))
  = Throw (interrupted_error SIGINT).
Proof.
  destruct (run_in_workdir_pending run_signaled_late sample_test
              "/tmp/kyua.abcdef"
              (set_interrupted_signo SIGINT
                 (set_auto_dirs {["/tmp/kyua.abcdef"]} programmed_process)))
    as (w' & Hrun & _).
  - discriminate.
  - vm_compute. reflexivity.
  - vm_compute. by eexists.
  - vm_compute. by eexists.
  - vm_compute. by eexists.
  - reflexivity.
  - rewrite Hrun. reflexivity.
Defined.
